(** * eps2: full-text search over an indexed text corpus

    A shallow embedding of the two executables of the repository:

    - [src/text_search_webui_TURSO.py], the query server: construction of
      the FTS match expression and of the SQL statement, snippet extraction,
      highlighting, and the [/search] request handler;
    - [src/searchable_text_db_efficient_TURSO.py], the indexer: the
      insert-or-ignore loop over the corpus.

    Python [str] values are lists of characters, Python [int] values are
    [Z], the datastore is a function from a statement and its bind
    parameters to rows or to an exception. *)

From Stdlib Require Import Ascii String DecimalString.
From Stdlib Require Import ZArith QArith Lia Bool Arith List.
Import ListNotations.
Close Scope Q_scope.

(** ** Python strings and the built-ins the program calls *)

Module PyStr.

Definition str := list ascii.

Definition lit (s : string) : str := list_ascii_of_string s.

(** The double-quote character, code point 34. *)
Definition dq : ascii := ascii_of_nat 34.
Definition tab : ascii := ascii_of_nat 9.

Fixpoint str_eqb (a b : str) : bool :=
  match a, b with
  | [], [] => true
  | x :: a', y :: b' => Ascii.eqb x y && str_eqb a' b'
  | _, _ => false
  end.

(** [c in s] for a one-character [c]. *)
Definition contains_char (c : ascii) (s : str) : bool :=
  existsb (Ascii.eqb c) s.

(** [str.isspace] on the ASCII range: space, \t, \n, \v, \f, \r and the
    separators 28..31. *)
Definition is_whitespace (c : ascii) : bool :=
  let n := nat_of_ascii c in
  (n =? 32) || ((9 <=? n) && (n <=? 13)) || ((28 <=? n) && (n <=? 31)).

Definition contains_whitespace (s : str) : bool := existsb is_whitespace s.

Fixpoint starts_with (p s : str) : bool :=
  match p, s with
  | [], _ => true
  | x :: p', y :: s' => Ascii.eqb x y && starts_with p' s'
  | _ :: _, [] => false
  end.

(** *** Slicing: [s[lo:hi]] with CPython's index adjustment *)

Definition adjust_index (len i : Z) : Z :=
  if (i <? 0)%Z then Z.max 0 (i + len) else Z.min i len.

Definition slice {A : Type} (s : list A) (lo hi : Z) : list A :=
  let n := Z.of_nat (length s) in
  let a := adjust_index n lo in
  let b := adjust_index n hi in
  firstn (Z.to_nat (b - a)) (skipn (Z.to_nat a) s).

(** *** [str.replace(old, new[, count])] *)

Definition may_replace (count : option nat) : bool :=
  match count with
  | Some 0 => false
  | _ => true
  end.

Definition used_one (count : option nat) : option nat :=
  option_map pred count.

(** Left-to-right scan for a non-empty [old]; [skip] counts the characters
    of the occurrence just replaced that are still to be passed over. *)
Fixpoint replace_scan (old new : str) (count : option nat) (skip : nat)
  (s : str) : str :=
  match s with
  | [] => []
  | c :: s' =>
      match skip with
      | S k => replace_scan old new count k s'
      | O =>
          if may_replace count && starts_with old s
          then new ++ replace_scan old new (used_one count) (pred (length old)) s'
          else c :: replace_scan old new count 0 s'
      end
  end.

(** An empty [old] matches before every character and at the end. *)
Fixpoint replace_empty (new : str) (count : option nat) (s : str) : str :=
  if may_replace count
  then new ++ match s with
              | [] => []
              | c :: s' => c :: replace_empty new (used_one count) s'
              end
  else s.

Definition replace (old new : str) (count : option nat) (s : str) : str :=
  match old with
  | [] => replace_empty new count s
  | _ :: _ => replace_scan old new count 0 s
  end.

End PyStr.

Import PyStr.

(** ** The regular-expression calls of the query server

    Every pattern the program compiles is [re.escape(query)] under
    [re.IGNORECASE]: a sequence of literal characters, each compared with one
    character of the text by the engine's case-insensitive comparison.  That
    comparison is the parameter [ci_eqb] (pattern character first): the
    engine's case tables are not part of the repository. *)

Module Re.

Section Literal.

Variable ci_eqb : ascii -> ascii -> bool.

(** The pattern [q] matches at the start of [s]. *)
Fixpoint match_here (q s : str) : bool :=
  match q, s with
  | [], _ => true
  | x :: q', y :: s' => ci_eqb x y && match_here q' s'
  | _ :: _, [] => false
  end.

(** [pattern.finditer(s)]: the spans [(start, end)] of the successive
    non-overlapping matches, scanning from the left.  [pos] is the index of
    the head of [s] in the whole text and [skip] the number of characters of
    the last match still to be passed over. *)
Fixpoint finditer_from (q : str) (pos skip : nat) (s : str)
  : list (nat * nat) :=
  match s with
  | [] =>
      if (skip =? 0) && match_here q []
      then [(pos, pos + length q)] else []
  | _ :: s' =>
      match skip with
      | S k => finditer_from q (S pos) k s'
      | O =>
          if match_here q s
          then (pos, pos + length q)
                 :: finditer_from q (S pos) (pred (length q)) s'
          else finditer_from q (S pos) 0 s'
      end
  end.

Definition finditer (q s : str) : list (nat * nat) := finditer_from q 0 0 s.

(** The characters of [s] at the indices [b <= i < e]. *)
Definition span (s : str) (b e : nat) : str := firstn (e - b) (skipn b s).

(** [re.sub] with a template [before \g<0> after]: the text between the
    matches is copied, every match is replaced by the expanded template. *)
Fixpoint expand (before after s : str) (last : nat) (ms : list (nat * nat))
  : str :=
  match ms with
  | [] => skipn last s
  | (b, e) :: ms' =>
      span s last b ++ before ++ span s b e ++ after
        ++ expand before after s e ms'
  end.

Definition sub (q before after s : str) : str :=
  expand before after s 0 (finditer q s).

End Literal.

(** Case-insensitive comparison on the ASCII letters, the instance used in
    the examples. *)
Definition ascii_lower (c : ascii) : ascii :=
  let n := nat_of_ascii c in
  if (65 <=? n) && (n <=? 90) then ascii_of_nat (n + 32) else c.

Definition ascii_ci_eqb (x y : ascii) : bool :=
  Ascii.eqb (ascii_lower x) (ascii_lower y).

End Re.

(** ** The query server *)

Module QueryServer.

(** A row of the SELECT of [search_database]: the columns
    [filepath, filename, content, image_url, rank]. *)
Record row := {
  r_filepath : str;
  r_filename : str;
  r_content : str;
  r_image_url : option str;
  r_rank : Q
}.

(** [db_client.execute(sql, params)] returns a result set or raises. *)
Inductive exec_result :=
| Rows (rows : list row)
| Raises (msg : str).

Definition datastore := str -> list str -> exec_result.

Record result := {
  file_path : str;
  file_name : str;
  snippet : str;
  rank : Q;
  image_url : option str
}.

(** *** Lines 37-41: the quoted query *)

Definition quoted_query (query : str) : str :=
  if contains_char " " query
  then let escaped_query := replace [dq] [dq; dq] None query in
       [dq] ++ escaped_query ++ [dq]
  else query.

(** *** Lines 43-51 *)

Definition fts_query_sql (search_type : str) : str :=
  if str_eqb search_type (lit "content") then lit "content:?"
  else if str_eqb search_type (lit "filename") then lit "filename:?"
  else lit "text_files_fts MATCH ?".

Definition params (search_type quoted : str) : list str :=
  if str_eqb search_type (lit "content") then [quoted]
  else if str_eqb search_type (lit "filename") then [quoted]
  else [lit "content:" ++ quoted ++ lit " OR filename:" ++ quoted].

(** *** Lines 53-65: the statement, before and after the WHERE condition *)

Definition sql_head : str := lit "
                SELECT
                    tf.filepath,
                    tf.filename,
                    tf.content, -- Select the FULL content
                    tf.image_url, -- Select the image URL
                    text_files_fts.rank
                FROM text_files_fts
                JOIN text_files AS tf ON text_files_fts.rowid = tf.id
                WHERE ".

Definition sql_tail : str := lit "
                ORDER BY text_files_fts.rank
                LIMIT 1000
            ".

Definition match_placeholder : str := lit "text_files_fts MATCH ?".

Definition sql_template (search_type : str) : str :=
  sql_head
    ++ (if negb (str_eqb search_type (lit "all")) then match_placeholder
        else fts_query_sql search_type)
    ++ sql_tail.

(** *** Lines 67-82: the statement and the bind parameters handed to
    [db_client.execute] *)

Definition prepare (query search_type : str) : str * list str :=
  let quoted := quoted_query query in
  let sql := sql_template search_type in
  if negb (str_eqb search_type (lit "all")) then
    let q_params := replace (lit "?") quoted None (fts_query_sql search_type) in
    let sql := replace (lit "?") q_params (Some 1) sql in
    let match_clause := search_type ++ lit ":" ++ quoted in
    let sql := replace match_placeholder match_placeholder None sql in
    (sql, [match_clause])
  else
    (sql, params search_type quoted).

Definition executed_sql (query search_type : str) : str :=
  fst (prepare query search_type).

Definition bound_params (query search_type : str) : list str :=
  snd (prepare query search_type).

Section Search.

Variable ci_eqb : ascii -> ascii -> bool.

Definition ellipsis : str := lit "...".

(** *** Lines 90-103: the snippet of one row *)

Definition make_snippet (query full_content : str) (snippet_length : Z)
  : str :=
  let len := Z.of_nat (length full_content) in
  match Re.finditer ci_eqb query full_content with
  | (m_start, m_end) :: _ =>
      let start := Z.max 0 (Z.of_nat m_start - snippet_length) in
      let end_ := Z.min len (Z.of_nat m_end + snippet_length) in
      let snippet := slice full_content start end_ in
      let snippet := if (start >? 0)%Z then ellipsis ++ snippet else snippet in
      if (end_ <? len)%Z then snippet ++ ellipsis else snippet
  | [] =>
      slice full_content 0 (snippet_length * 2)
        ++ (if (len >? snippet_length * 2)%Z then ellipsis else [])
  end.

(** *** Lines 105-111: the highlighting pass *)

Definition highlight_open : str :=
  lit "<span class=" ++ [dq] ++ lit "highlight" ++ [dq] ++ lit ">".

Definition highlight_close : str := lit "</span>".

Definition highlight (query snippet : str) : str :=
  Re.sub ci_eqb query highlight_open highlight_close snippet.

(** *** Lines 86-119: one result per row *)

Definition process_row (query : str) (snippet_length : Z) (r : row)
  : result :=
  {| file_path := r_filepath r;
     file_name := r_filename r;
     snippet := highlight query
                  (make_snippet query (r_content r) snippet_length);
     rank := r_rank r;
     image_url := r_image_url r |}.

(** *** [search_database]

    [db_client] is the module-level client: [None] when the connection
    failed at start-up.  The message printed to the error stream by the
    handler of line 123 is not part of the returned value. *)

Definition search_database (db_client : option datastore) (query : str)
  (snippet_length : Z) (search_type : str) : list result :=
  match db_client with
  | None => []
  | Some db =>
      let (sql, q_params) := prepare query search_type in
      match db sql q_params with
      | Rows rows => map (process_row query snippet_length) rows
      | Raises _ => []
      end
  end.

(** *** The [/search] handler

    The parsed body is a JSON object; a field, when present, holds null, a
    boolean, an integer or a string.  A body that is not read as JSON or
    is not an object is handled in [Wire] below. *)

Inductive json :=
| JNull
| JBool (b : bool)
| JInt (z : Z)
| JStr (s : str).

Record request := {
  query_field : option json;
  snippet_length_field : option json;
  search_type_field : option json
}.

(** [data.get(key, default)] *)
Definition get (field : option json) (default : json) : json :=
  match field with
  | Some v => v
  | None => default
  end.

Inductive exn := TypeError | ValueError.

(** The integer parser of [int(s)] on a string, a parameter: [None] when
    it raises [ValueError]. *)
Variable int_of_str : str -> option Z.

Definition py_int (v : json) : exn + Z :=
  match v with
  | JNull => inl TypeError
  | JBool b => inr (if b then 1 else 0)%Z
  | JInt z => inr z
  | JStr s =>
      match int_of_str s with
      | Some z => inr z
      | None => inl ValueError
      end
  end.

(** Truth value of a field, as tested by [not query]. *)
Definition truthy (v : json) : bool :=
  match v with
  | JNull => false
  | JBool b => b
  | JInt z => negb (z =? 0)%Z
  | JStr s => negb (length s =? 0)
  end.

(** [str(v)], the text an f-string inserts for [v]. *)
Definition py_str (v : json) : str :=
  match v with
  | JNull => lit "None"
  | JBool b => if b then lit "True" else lit "False"
  | JInt z => lit (NilZero.string_of_int (Z.to_int z))
  | JStr s => s
  end.

(** The call of line 149.  A query that is not a string makes
    [' ' in query] raise [TypeError] inside the [try], and line 125
    returns the empty list.  A search type that is not a string is unequal
    to every mode name and enters the statement through its [str] form. *)
Definition call_search_database (db_client : option datastore)
  (query : json) (snippet_length : Z) (search_type : json) : list result :=
  match query with
  | JStr q => search_database db_client q snippet_length (py_str search_type)
  | _ => []
  end.

Inductive body :=
| ErrorBody (error : str)
| SearchBody (query : json) (results : list result) (count : nat)
    (search_type : json).

(** What the handler does: return a response, or let an exception escape
    to the framework. *)
Inductive outcome :=
| Respond (status : nat) (b : body)
| Escapes (e : exn).

Definition search (db_client : option datastore) (data : request)
  : outcome :=
  match db_client with
  | None => Respond 500 (ErrorBody (lit "Database connection not available"))
  | Some _ =>
      let query := get (query_field data) (JStr []) in
      match py_int (get (snippet_length_field data) (JInt 1000)) with
      | inl e => Escapes e
      | inr snippet_length =>
          let search_type := get (search_type_field data) (JStr (lit "content")) in
          if negb (truthy query)
          then Respond 400 (ErrorBody (lit "Query is required"))
          else
            let results :=
              call_search_database db_client query snippet_length search_type in
            Respond 200 (SearchBody query results (length results) search_type)
      end
  end.

End Search.

(** A decimal parser for the examples: optional sign, then digits. *)
Definition digit_of (c : ascii) : option Z :=
  let n := nat_of_ascii c in
  if (48 <=? n) && (n <=? 57) then Some (Z.of_nat (n - 48)) else None.

Fixpoint digits_value (acc : option Z) (s : str) : option Z :=
  match s with
  | [] => acc
  | c :: s' =>
      match digit_of c with
      | Some d => digits_value (Some (match acc with
                                      | Some a => a * 10 + d
                                      | None => d
                                      end)%Z) s'
      | None => None
      end
  end.

Definition simple_int_of_str (s : str) : option Z :=
  match s with
  | "-"%char :: s' => option_map Z.opp (digits_value None s')
  | _ => digits_value None s
  end.

End QueryServer.

(** ** The indexer *)

Module Indexer.

(** A row of [text_files] (lines 51-57). *)
Record document := {
  id : Z;
  filename : str;
  filepath : str;
  content : str;
  image_url : option str
}.

Definition table := list document.

Definition has_path (p : str) (d : document) : bool := str_eqb (filepath d) p.

(** The rowid given to a new row: one more than the largest in use. *)
Definition next_id (t : table) : Z :=
  (fold_right Z.max 0 (map id t) + 1)%Z.

(** Line 152: [INSERT OR IGNORE INTO text_files (filename, filepath,
    content, image_url)] under the UNIQUE constraint on [filepath]. *)
Definition insert_or_ignore (t : table) (fname fpath text : str)
  (url : option str) : table :=
  if existsb (has_path fpath) t then t
  else t ++ [ {| id := next_id t; filename := fname; filepath := fpath;
                 content := text; image_url := url |} ].

(** [os.path.basename]: what follows the last slash. *)
Fixpoint basename_acc (acc : str) (p : str) : str :=
  match p with
  | [] => rev acc
  | c :: p' =>
      if Ascii.eqb c "/" then basename_acc [] p' else basename_acc (c :: acc) p'
  end.

Definition basename (p : str) : str := basename_acc [] p.

(** One path of the glob, with what the environment answers for it:
    the text read (or [None] when opening or reading raises), the URL
    returned by [find_and_upload_image], and whether the insert raises. *)
Record file := {
  f_path : str;
  f_read : option str;
  f_image : option str;
  f_insert_raises : bool
}.

(** The body of the loop, lines 139-158. *)
Definition index_one (t : table) (f : file) : table :=
  match f_read f with
  | None => t
  | Some full_content =>
      let fname := basename (f_path f) in
      let url := f_image f in
      if f_insert_raises f then t
      else insert_or_ignore t fname (f_path f) full_content url
  end.

Definition index_text_files (txt_files : list file) (t : table) : table :=
  fold_left index_one txt_files t.

Definition rows_for (p : str) (t : table) : nat :=
  length (filter (has_path p) t).

End Indexer.

(** ** The notions the specification uses

    These definitions follow the wording of the specification and are
    compared with the functions above. *)

Module Spec.

(** Every double quote of [s] doubled. *)
Definition double_quotes (s : str) : str :=
  flat_map (fun c => if Ascii.eqb c dq then [dq; dq] else [c]) s.

(** The characters of [s] at the indices [a <= i < b]. *)
Definition substring {A : Type} (s : list A) (a b : Z) : list A :=
  firstn (Z.to_nat (b - a)) (skipn (Z.to_nat a) s).

(** The first [n] characters of [s]. *)
Definition first_chars {A : Type} (s : list A) (n : Z) : list A :=
  firstn (Z.to_nat n) s.

(** The snippet around a match that begins at index [p] and is [n]
    characters long: the substring from [max(0, p - L)] to
    [min(len(content), p + n + L)], with an ellipsis in front iff the start
    is above 0 and an ellipsis behind iff the end is below [len(content)]. *)
Definition window_snippet (content : str) (p n : nat) (L : Z) : str :=
  let len := Z.of_nat (length content) in
  let start := Z.max 0 (Z.of_nat p - L) in
  let end_ := Z.min len (Z.of_nat (p + n) + L) in
  (if (0 <? start)%Z then QueryServer.ellipsis else [])
    ++ substring content start end_
    ++ (if (end_ <? len)%Z then QueryServer.ellipsis else []).

(** The snippet of a content without a match: the first [2 * L]
    characters, and an ellipsis iff the content is longer. *)
Definition fallback_snippet (content : str) (L : Z) : str :=
  first_chars content (2 * L)
    ++ (if (2 * L <? Z.of_nat (length content))%Z
        then QueryServer.ellipsis else []).

(** The paths that have a row in the content table. *)
Definition paths (t : Indexer.table) : list str := map Indexer.filepath t.

(** A file is settled in a table when its turn in the loop cannot add a
    row: reading it raises, the insert raises, or its path has a row. *)
Definition settled (f : Indexer.file) (t : Indexer.table) : Prop :=
  Indexer.f_read f = None
  \/ Indexer.f_insert_raises f = true
  \/ In (Indexer.f_path f) (paths t).

(** The WHERE condition up to the value of MATCH. *)
Definition match_prefix : str := lit "text_files_fts MATCH ".

(** The number of question marks, the placeholder character. *)
Definition placeholders (s : str) : nat := count_occ ascii_dec s "?"%char.

(** Spans in order and disjoint: each begins at or after [last], the end
    of the span before it. *)
Fixpoint in_order (last : nat) (ms : list (nat * nat)) : Prop :=
  match ms with
  | [] => True
  | (b, e) :: ms' => last <= b /\ b <= e /\ in_order e ms'
  end.

Section Occurrences.

Variable ci_eqb : ascii -> ascii -> bool.

(** [q] occurs in [s] at index [p] as a case-insensitive literal match:
    [s] splits into [p] characters, a stretch matching [q] character by
    character, and a rest. *)
Definition occurs_at (q s : str) (p : nat) : Prop :=
  exists pre mid post,
    s = pre ++ mid ++ post
    /\ length pre = p
    /\ Forall2 (fun x y => ci_eqb x y = true) q mid.

Definition contains (q s : str) : Prop := exists p, occurs_at q s p.

(** [p] is the first (leftmost) occurrence. *)
Definition first_occurrence (q s : str) (p : nat) : Prop :=
  occurs_at q s p /\ forall p', p' < p -> ~ occurs_at q s p'.

End Occurrences.

End Spec.

(** ** Sample data for the instances below *)

Module Sample.

Import QueryServer.

Definition fox_row : row :=
  {| r_filepath := lit "/TEXT/001/fox.txt";
     r_filename := lit "fox.txt";
     r_content := lit "the quick brown fox";
     r_image_url := None;
     r_rank := (-2 # 1)%Q |}.

Definition dog_row : row :=
  {| r_filepath := lit "/TEXT/001/dog.txt";
     r_filename := lit "dog.txt";
     r_content := lit "the lazy dog and the quick cat";
     r_image_url := Some (lit "https://pub.example/001/dog.jpg");
     r_rank := (-1 # 1)%Q |}.

(** A datastore that answers every statement with the same two rows, one
    that answers with no row, and one on which every statement raises. *)
Definition db_two_rows : datastore := fun _ _ => Rows [fox_row; dog_row].
Definition db_no_rows : datastore := fun _ _ => Rows [].
Definition db_raising : datastore :=
  fun _ _ => Raises (lit "fts5: syntax error").

(** The body [{query: <one double quote>, search_type: all}]. *)
Definition lone_quote_request : request :=
  {| query_field := Some (JStr [dq]);
     snippet_length_field := None;
     search_type_field := Some (JStr (lit "all")) |}.

(** The body [{query: <empty string>}]. *)
Definition empty_query_request : request :=
  {| query_field := Some (JStr []);
     snippet_length_field := None;
     search_type_field := None |}.

(** The body [{query: <empty string>, snippet_length: abc}]. *)
Definition bad_length_request : request :=
  {| query_field := Some (JStr []);
     snippet_length_field := Some (JStr (lit "abc"));
     search_type_field := None |}.

Definition fox_document : Indexer.document :=
  {| Indexer.id := 1;
     Indexer.filename := lit "fox.txt";
     Indexer.filepath := lit "/TEXT/001/fox.txt";
     Indexer.content := lit "the quick brown fox";
     Indexer.image_url := None |}.

(** The file of [fox_document] as found again, with other text and an
    image this time. *)
Definition fox_file_again : Indexer.file :=
  {| Indexer.f_path := lit "/TEXT/001/fox.txt";
     Indexer.f_read := Some (lit "another text");
     Indexer.f_image := Some (lit "https://pub.example/001/fox.jpg");
     Indexer.f_insert_raises := false |}.

Definition dog_file : Indexer.file :=
  {| Indexer.f_path := lit "/TEXT/001/dog.txt";
     Indexer.f_read := Some (lit "the lazy dog");
     Indexer.f_image := None;
     Indexer.f_insert_raises := false |}.

Definition unreadable_file : Indexer.file :=
  {| Indexer.f_path := lit "/TEXT/002/cat.txt";
     Indexer.f_read := None;
     Indexer.f_image := None;
     Indexer.f_insert_raises := false |}.

End Sample.

(** ** Path functions of [os.path] the indexer calls *)

Module OsPath.

(** [s.rfind(c)]: the index of the last [c], scanning with the index [i]
    of the head and the last index seen. *)
Fixpoint rfind_from (c : ascii) (i : nat) (last : option nat) (s : str)
  : option nat :=
  match s with
  | [] => last
  | x :: s' =>
      rfind_from c (S i) (if Ascii.eqb x c then Some i else last) s'
  end.

Definition rfind (c : ascii) (s : str) : option nat := rfind_from c 0 None s.

(** [os.path.splitext(p)[0]]: the path up to its last dot, when that dot
    comes after the last slash and after a character of the file name
    that is not a dot; the whole path otherwise. *)
Definition splitext_root (p : str) : str :=
  match rfind "." p with
  | None => p
  | Some dot =>
      let name_start :=
        match rfind "/" p with
        | Some sep => S sep
        | None => 0
        end in
      if (name_start <=? dot)
         && existsb (fun x => negb (Ascii.eqb x "."))
              (Re.span p name_start dot)
      then firstn dot p
      else p
  end.

Definition ends_with_char (c : ascii) (s : str) : bool :=
  match rev s with
  | x :: _ => Ascii.eqb x c
  | [] => false
  end.

(** One step of [os.path.join]. *)
Definition join2 (path b : str) : str :=
  if starts_with (lit "/") b then b
  else if (length path =? 0) || ends_with_char "/" path then path ++ b
  else path ++ lit "/" ++ b.

Definition join (a : str) (parts : list str) : str := fold_left join2 parts a.

End OsPath.

(** ** The indexer: [find_and_upload_image] and the loop with its effects *)

Module Images.

Definition IMAGE_BASE_DIRECTORY : str :=
  lit "/home/jon/Documents/Epstein dump nov 12".

Definition image_extensions : list str :=
  [lit ".jpg"; lit ".jpeg"; lit ".JPG"; lit ".JPEG"; lit ".png"; lit ".PNG"].

(** A call of [s3.upload_file]. *)
Record upload_call := {
  u_source : str;
  u_bucket : str;
  u_key : str;
  u_content_type : str
}.

(** What the indexer reads from its surroundings: the two configuration
    values used in an upload, the text of a file ([None] when opening or
    reading raises), [os.path.exists], whether an upload succeeds, and
    whether the insert for a path raises. *)
Record env := {
  R2_BUCKET_NAME : str;
  R2_PUBLIC_URL : str;
  e_read : str -> option str;
  e_exists : str -> bool;
  e_upload_ok : upload_call -> bool;
  e_insert_raises : str -> bool
}.

Definition is_digit (c : ascii) : bool :=
  let n := nat_of_ascii c in (48 <=? n) && (n <=? 57).

(** The pattern [/TEXT/(\d{3})/] at the start of [s]: the group. *)
Definition subdir_here (s : str) : option str :=
  if starts_with (lit "/TEXT/") s then
    match skipn 6 s with
    | d1 :: d2 :: d3 :: slash :: _ =>
        if is_digit d1 && is_digit d2 && is_digit d3
           && Ascii.eqb slash "/"
        then Some [d1; d2; d3] else None
    | _ => None
    end
  else None.

(** [re.search]: the leftmost position where the pattern matches. *)
Fixpoint find_subdir (s : str) : option str :=
  match subdir_here s with
  | Some d => Some d
  | None =>
      match s with
      | [] => None
      | _ :: s' => find_subdir s'
      end
  end.

(** [s.lstrip(c)] for one character, and [s.lower()] on ASCII text. *)
Fixpoint lstrip_char (c : ascii) (s : str) : str :=
  match s with
  | x :: s' => if Ascii.eqb x c then lstrip_char c s' else s
  | [] => []
  end.

Definition lower (s : str) : str := map Re.ascii_lower s.

Definition content_type (ext : str) : str :=
  lit "image/" ++ lower (lstrip_char "." ext).

(** Lines 106-127: the loop over the extensions.  The result is the
    returned URL and the upload calls made. *)
Fixpoint probe (e : env) (sub_dir base_name : str) (exts : list str)
  : option str * list upload_call :=
  match exts with
  | [] => (None, [])
  | ext :: rest =>
      let image_path :=
        OsPath.join IMAGE_BASE_DIRECTORY [sub_dir; base_name ++ ext] in
      if e_exists e image_path then
        let object_key := sub_dir ++ lit "/" ++ base_name ++ ext in
        let call := {| u_source := image_path;
                       u_bucket := R2_BUCKET_NAME e;
                       u_key := object_key;
                       u_content_type := content_type ext |} in
        if e_upload_ok e call
        then (Some (R2_PUBLIC_URL e ++ lit "/" ++ object_key), [call])
        else (None, [call])
      else probe e sub_dir base_name rest
  end.

(** Lines 94-128. *)
Definition find_and_upload_image (e : env) (txt_path : str)
  : option str * list upload_call :=
  let base_name := OsPath.splitext_root (Indexer.basename txt_path) in
  match find_subdir txt_path with
  | None => (None, [])
  | Some sub_dir => probe e sub_dir base_name image_extensions
  end.

(** Lines 137-158 with the content table and the uploads made as the
    state: the text is read first, then the image is looked for and
    uploaded, then the row is inserted. *)
Definition index_one (e : env) (st : Indexer.table * list upload_call)
  (file_path : str) : Indexer.table * list upload_call :=
  let (t, uploads) := st in
  match e_read e file_path with
  | None => (t, uploads)
  | Some full_content =>
      let fname := Indexer.basename file_path in
      let (url, calls) := find_and_upload_image e file_path in
      if e_insert_raises e file_path then (t, uploads ++ calls)
      else (Indexer.insert_or_ignore t fname file_path full_content url,
            uploads ++ calls)
  end.

Definition index_text_files (e : env) (txt_files : list str)
  (st : Indexer.table * list upload_call)
  : Indexer.table * list upload_call :=
  fold_left (index_one e) txt_files st.



End Images.

(** ** The query server: [view_file] and the start of the process *)

Module ViewFile.

(** The rows of the SELECT of [view_file]: [content, image_url]. *)
Inductive view_result :=
| VRows (rows : list (str * option str))
| VRaises (msg : str).

Definition view_store := str -> list str -> view_result.

(** [render_template]: the page, or an exception with its message. *)
Inductive render_result :=
| Page (html : str)
| RenderRaises (msg : str).

Definition view_sql : str :=
  lit "SELECT content, image_url FROM text_files WHERE filepath = ?".

Section Handler.

Variable render : str -> str -> option str -> render_result.

(** Lines 159-189; [path] is [request.args.get('path')].  The response is
    a status and a body. *)
Definition view_file (db_client : option view_store) (path : option str)
  : nat * str :=
  match db_client with
  | None => (500, lit "Database connection not available")
  | Some db =>
      match path with
      | None | Some [] => (400, lit "File path parameter is missing")
      | Some file_path =>
          match db view_sql [file_path] with
          | VRaises msg => (500, lit "Error reading file: " ++ msg)
          | VRows [] => (404, lit "File not found in database")
          | VRows ((content, image_url) :: _) =>
              match render file_path content image_url with
              | Page html => (200, html)
              | RenderRaises msg => (500, lit "Error reading file: " ++ msg)
              end
          end
      end
  end.

End Handler.

(** The SELECT of [view_file] on a content table. *)
Definition select_content (t : Indexer.table) (file_path : str)
  : list (str * option str) :=
  map (fun d => (Indexer.content d, Indexer.image_url d))
    (filter (Indexer.has_path file_path) t).

(** A datastore that holds the table [t]. *)
Definition table_store (t : Indexer.table) : view_store :=
  fun _ q_params =>
    match q_params with
    | [file_path] => VRows (select_content t file_path)
    | _ => VRaises (lit "wrong number of parameters")
    end.

End ViewFile.

Module Startup.

(** Lines 11-27 and 349-352 of the query server.  [create_client] gives
    the client, or [None] when it raises. *)
Inductive boot :=
| Exits (code : nat)
| Loaded (db_client : option QueryServer.datastore).

Definition unset (v : option str) : bool :=
  match v with
  | None | Some [] => true
  | Some _ => false
  end.

Definition load_module (TURSO_DB_URL TURSO_AUTH_TOKEN : option str)
  (create_client : str -> str -> option QueryServer.datastore) : boot :=
  match TURSO_DB_URL, TURSO_AUTH_TOKEN with
  | Some url, Some token =>
      if unset TURSO_DB_URL || unset TURSO_AUTH_TOKEN then Exits 1
      else Loaded (create_client url token)
  | _, _ => Exits 1
  end.

(** The module run as a script: the test of line 350 follows. *)
Definition run_script (TURSO_DB_URL TURSO_AUTH_TOKEN : option str)
  (create_client : str -> str -> option QueryServer.datastore) : boot :=
  match load_module TURSO_DB_URL TURSO_AUTH_TOKEN create_client with
  | Loaded None => Exits 1
  | b => b
  end.

End Startup.

(** ** More sample data *)

Module Sample2.

Import Images.

(** Surroundings in which one image exists, [001/fox.JPG], every upload
    succeeds and nothing raises. *)
Definition fox_env : env :=
  {| R2_BUCKET_NAME := lit "bucket";
     R2_PUBLIC_URL := lit "https://pub.example";
     e_read := fun p =>
       if str_eqb p (lit "/data/TEXT/001/fox.txt")
       then Some (lit "the quick brown fox") else None;
     e_exists := fun p =>
       str_eqb p (lit "/home/jon/Documents/Epstein dump nov 12/001/fox.JPG");
     e_upload_ok := fun _ => true;
     e_insert_raises := fun _ => false |}.

(** The same, with both [fox.jpg] and [fox.png] present and every upload
    failing. *)
Definition failing_env : env :=
  {| R2_BUCKET_NAME := lit "bucket";
     R2_PUBLIC_URL := lit "https://pub.example";
     e_read := fun _ => Some (lit "text");
     e_exists := fun p =>
       str_eqb p (lit "/home/jon/Documents/Epstein dump nov 12/001/fox.jpg")
       || str_eqb p (lit "/home/jon/Documents/Epstein dump nov 12/001/fox.png");
     e_upload_ok := fun _ => false;
     e_insert_raises := fun _ => false |}.

(** A datastore that returns a row for one statement and one parameter
    tuple only, and raises on every other call. *)
Definition spliced_only : QueryServer.datastore :=
  fun sql q_params =>
    if str_eqb sql
         (QueryServer.sql_head ++ lit "text_files_fts MATCH content:x;--"
            ++ QueryServer.sql_tail)
       && match q_params with
          | [p] => str_eqb p (lit "content:x;--")
          | _ => false
          end
    then QueryServer.Rows [Sample.fox_row]
    else QueryServer.Raises (lit "other statement").

Definition plain_render (file_path content : str) (url : option str)
  : ViewFile.render_result :=
  ViewFile.Page (file_path ++ lit ": " ++ content).

Definition no_template (file_path content : str) (url : option str)
  : ViewFile.render_result :=
  ViewFile.RenderRaises (lit "view_file.html").

End Sample2.

(** ** The [/search] handler from the body as received *)

Module Wire.

Import QueryServer.

(** What [request.json] of line 140 gives: an exception of the framework
    when the body is not read as JSON; a value that is not an object
    (null, a boolean, a number, a string, an array), on which
    [data.get] raises [AttributeError]; or an object, with its three
    fields. *)
Inductive body :=
| Unreadable
| NotAnObject
| Object (data : request).

(** The handler answers as [search] does, or an exception leaves it
    before line 141 or at line 141. *)
Inductive wire_outcome :=
| Handled (o : outcome)
| JsonRaises
| AttributeErrorEscapes.

Section Handler.

Variable ci_eqb : ascii -> ascii -> bool.
Variable int_of_str : str -> option Z.

(** Lines 134-157, with the test of the connection before the body is
    read. *)
Definition search_request (db_client : option datastore) (b : body)
  : wire_outcome :=
  match db_client with
  | None =>
      Handled (Respond 500
                 (ErrorBody (lit "Database connection not available")))
  | Some _ =>
      match b with
      | Unreadable => JsonRaises
      | NotAnObject => AttributeErrorEscapes
      | Object data => Handled (search ci_eqb int_of_str db_client data)
      end
  end.

(** An exception leaves the handler. *)
Definition raises (o : wire_outcome) : Prop :=
  o = JsonRaises \/ o = AttributeErrorEscapes
  \/ exists e, o = Handled (Escapes e).

End Handler.

End Wire.

(** ** Notions for the image lookup *)

Module ImageSpec.

Import Images.

(** The image file looked for: directly in the sub-directory of the image
    root. *)
Definition candidate (sub_dir base_name ext : str) : str :=
  IMAGE_BASE_DIRECTORY ++ lit "/" ++ sub_dir ++ lit "/" ++ base_name ++ ext.

Definition key_for (sub_dir base_name ext : str) : str :=
  sub_dir ++ lit "/" ++ base_name ++ ext.

Definition call_for (e : env) (sub_dir base_name ext : str) : upload_call :=
  {| u_source := candidate sub_dir base_name ext;
     u_bucket := R2_BUCKET_NAME e;
     u_key := key_for sub_dir base_name ext;
     u_content_type := content_type ext |}.

Definition url_for (e : env) (sub_dir base_name ext : str) : str :=
  R2_PUBLIC_URL e ++ lit "/" ++ key_for sub_dir base_name ext.

Definition three_digits (d : str) : Prop :=
  length d = 3 /\ forallb is_digit d = true.

(** The path has the segment [/TEXT/<sub_dir>/]. *)
Definition has_text_segment (p sub_dir : str) : Prop :=
  exists pre post, p = pre ++ lit "/TEXT/" ++ sub_dir ++ lit "/" ++ post.

End ImageSpec.

(** * Properties *)

Ltac conjs := repeat match goal with |- _ /\ _ => split end.

(** ** Strings *)

Section PyStrFacts.

Example replace_leftmost_first :
  replace (lit "aa") (lit "b") None (lit "aaa") = lit "ba".
Proof. reflexivity. Qed.

Example replace_empty_pattern :
  replace [] (lit "-") (Some 1) (lit "ab") = lit "-ab"
  /\ replace [] (lit "-") None (lit "abc") = lit "-a-b-c-".
Proof. split; reflexivity. Qed.

Example slice_indices :
  slice (lit "abcdefghij") 3 (-2) = lit "defgh"
  /\ slice (lit "abcdefghij") 0 (-6) = lit "abcd"
  /\ slice (lit "abcdefghij") 5 2 = []
  /\ slice (lit "abcdefghij") 3 50 = lit "defghij".
Proof. repeat split; reflexivity. Qed.

Lemma str_eqb_refl (a : str) : str_eqb a a = true.
Proof.
  induction a as [|x a IH]; simpl; [reflexivity|].
  now rewrite Ascii.eqb_refl, IH.
Qed.

Lemma str_eqb_eq (a b : str) : str_eqb a b = true <-> a = b.
Proof.
  split; [|intros ->; apply str_eqb_refl].
  revert b; induction a as [|x a IH]; intros [|y b]; simpl;
    try discriminate; [reflexivity|].
  intros H; apply andb_true_iff in H as [Hx Hr].
  apply Ascii.eqb_eq in Hx; subst y.
  f_equal; auto.
Qed.

Lemma contains_char_In (c : ascii) (s : str) :
  contains_char c s = true <-> In c s.
Proof.
  unfold contains_char; rewrite existsb_exists; split.
  - intros (x & Hin & Hx); apply Ascii.eqb_eq in Hx; now subst.
  - intros Hin; exists c; split; [assumption|apply Ascii.eqb_refl].
Qed.

Lemma contains_char_false (c : ascii) (s : str) :
  contains_char c s = false <-> ~ In c s.
Proof.
  rewrite <- contains_char_In; destruct (contains_char c s); split;
    congruence.
Qed.

Lemma starts_with_split (p s : str) :
  starts_with p s = true -> s = p ++ skipn (length p) s.
Proof.
  revert s; induction p as [|x p IH]; intros [|y s]; simpl;
    try discriminate; try reflexivity.
  intros H; apply andb_true_iff in H as [Hx Hr].
  apply Ascii.eqb_eq in Hx; subst y; f_equal; auto.
Qed.

Lemma starts_with_length (p s : str) :
  starts_with p s = true -> length p <= length s.
Proof.
  revert s; induction p as [|x p IH]; intros [|y s]; simpl;
    try discriminate; try lia.
  intros H; apply andb_true_iff in H as [_ Hr]; apply IH in Hr; lia.
Qed.

(** A count of zero stops the scan: the rest is copied. *)
Lemma replace_scan_exhausted (old new s : str) :
  replace_scan old new (Some 0) 0 s = s.
Proof.
  induction s as [|c s IH]; simpl; [reflexivity|now rewrite IH].
Qed.

(** Replacing the first occurrence of a character. *)
Lemma replace_first_char (c : ascii) (new pre post : str) :
  ~ In c pre ->
  replace [c] new (Some 1) (pre ++ c :: post) = pre ++ new ++ post.
Proof.
  unfold replace; induction pre as [|x pre IH]; intros Hnot.
  - simpl. rewrite Ascii.eqb_refl. simpl.
    now rewrite replace_scan_exhausted.
  - simpl in *.
    destruct (Ascii.eqb c x) eqn:E.
    + apply Ascii.eqb_eq in E; subst; exfalso; auto.
    + simpl. f_equal. apply IH. auto.
Qed.

(** Replacing every occurrence of a character. *)
Lemma replace_every_char (c : ascii) (new s : str) :
  replace [c] new None s
  = flat_map (fun x => if Ascii.eqb x c then new else [x]) s.
Proof.
  unfold replace; induction s as [|x s IH]; simpl; [reflexivity|].
  rewrite (Ascii.eqb_sym x c).
  destruct (Ascii.eqb c x); simpl; now rewrite IH.
Qed.

(** Replacing a non-empty text by itself changes nothing. *)
Lemma replace_scan_same (old : str) (count : option nat) (s : str) :
  old <> [] ->
  forall skip, skip <= length s ->
  replace_scan old old count skip s = skipn skip s.
Proof.
  intros Hne; revert count; induction s as [|c s IH]; intros count skip Hle.
  - simpl in *. now destruct skip.
  - destruct skip as [|k]; cbn [replace_scan skipn].
    + destruct (may_replace count && starts_with old (c :: s)) eqn:E.
      * apply andb_true_iff in E as [_ E].
        destruct old as [|o old']; [congruence|].
        pose proof (starts_with_length _ _ E) as Hlen.
        apply starts_with_split in E. cbn [length pred].
        rewrite IH by (simpl in Hlen; lia).
        simpl in E. injection E as -> E. simpl. f_equal. exact (eq_sym E).
      * f_equal. apply (IH count 0). lia.
    + apply IH. simpl in Hle. lia.
Qed.

Lemma replace_same (old : str) (s : str) :
  old <> [] -> replace old old None s = s.
Proof.
  intros Hne. destruct old as [|o old']; [congruence|].
  unfold replace. rewrite replace_scan_same; [reflexivity|assumption|lia].
Qed.

End PyStrFacts.

(** ** The literal, case-insensitive matcher *)

Section ReFacts.

Variable ci_eqb : ascii -> ascii -> bool.

Local Abbreviation match_here := (Re.match_here ci_eqb).
Local Abbreviation finditer_from := (Re.finditer_from ci_eqb).
Local Abbreviation finditer := (Re.finditer ci_eqb).
Local Abbreviation occurs_at := (Spec.occurs_at ci_eqb).

Lemma match_here_split (q s : str) :
  match_here q s = true <->
  exists mid post,
    s = mid ++ post /\ Forall2 (fun x y => ci_eqb x y = true) q mid.
Proof.
  revert s; induction q as [|x q IH]; intros s; simpl.
  - split; [intros _; exists [], s; split; [reflexivity|constructor]|auto].
  - destruct s as [|y s].
    + split; [discriminate|].
      intros (mid & post & Hs & Hf). inversion Hf; subst. discriminate.
    + rewrite andb_true_iff, IH. split.
      * intros (Hxy & mid & post & -> & Hf).
        exists (y :: mid), post. split; [reflexivity|now constructor].
      * intros (mid & post & Hs & Hf). inversion Hf; subst.
        injection Hs as -> ->. split; [assumption|eauto].
Qed.

(** An occurrence at [p], in terms of the matcher. *)
Lemma occurs_at_iff (q s : str) (p : nat) :
  occurs_at q s p <-> p <= length s /\ match_here q (skipn p s) = true.
Proof.
  unfold Spec.occurs_at. rewrite match_here_split. split.
  - intros (pre & mid & post & -> & <- & Hf). split.
    + rewrite length_app. lia.
    + exists mid, post. split; [|assumption].
      rewrite skipn_app, skipn_all, Nat.sub_diag. reflexivity.
  - intros (Hle & mid & post & Hs & Hf).
    exists (firstn p s), mid, post. conjs; [| |assumption].
    + now rewrite <- Hs, firstn_skipn.
    + rewrite length_firstn. lia.
Qed.

(** The scan finds the leftmost occurrence at or after [skip]. *)
Lemma finditer_from_first (q s : str) :
  forall pos skip p,
    skip <= p -> p <= length s -> match_here q (skipn p s) = true ->
    exists p0 rest,
      skip <= p0 /\ p0 <= p
      /\ match_here q (skipn p0 s) = true
      /\ (forall p', skip <= p' -> p' < p0 ->
                     match_here q (skipn p' s) = false)
      /\ finditer_from q pos skip s
         = (pos + p0, pos + p0 + length q) :: rest.
Proof.
  induction s as [|c s IH]; intros pos skip p Hskip Hp Hm.
  - simpl in Hp. assert (p = 0) by lia. subst p.
    assert (skip = 0) by lia. subst skip. simpl in Hm.
    exists 0, []. conjs; try lia; try assumption.
    cbn [Re.finditer_from Nat.eqb andb]. rewrite Hm.
    now rewrite !Nat.add_0_r.
  - destruct skip as [|k].
    + destruct (match_here q (c :: s)) eqn:Hhead.
      * exists 0. eexists. conjs; try lia; try assumption.
        cbn [Re.finditer_from]. rewrite Hhead.
        now rewrite !Nat.add_0_r.
      * destruct p as [|p]; [simpl in Hm; congruence|].
        destruct (IH (S pos) 0 p) as (p0 & rest & H1 & H2 & H3 & H4 & H5);
          [lia|simpl in Hp; lia|assumption|].
        exists (S p0), rest. conjs; try lia; try assumption.
        -- intros [|p'] _ Hlt; [assumption|]. apply H4; lia.
        -- cbn [Re.finditer_from]. rewrite Hhead, H5.
           now rewrite !Nat.add_succ_r.
    + destruct p as [|p]; [lia|].
      destruct (IH (S pos) k p) as (p0 & rest & H1 & H2 & H3 & H4 & H5);
        [lia|simpl in Hp; lia|assumption|].
      exists (S p0), rest. conjs; try lia; try assumption.
      * intros [|p'] Hge Hlt; [lia|]. apply H4; lia.
      * cbn [Re.finditer_from]. rewrite H5. now rewrite !Nat.add_succ_r.
Qed.

(** Without an occurrence at or after [skip] the scan finds nothing. *)
Lemma finditer_from_none (q s : str) :
  forall pos skip,
    (forall p, skip <= p -> p <= length s ->
               match_here q (skipn p s) = false) ->
    finditer_from q pos skip s = [].
Proof.
  induction s as [|c s IH]; intros pos skip Hno.
  - cbn [Re.finditer_from]. destruct skip; [|reflexivity].
    pose proof (Hno 0 (le_n 0) (le_n 0)) as H0. cbn [skipn] in H0.
    now rewrite H0.
  - destruct skip as [|k]; cbn [Re.finditer_from].
    + pose proof (Hno 0 (le_n 0) (Nat.le_0_l _)) as H0. cbn [skipn] in H0.
      rewrite H0. apply IH.
      intros p H1 H2. apply (Hno (S p)); simpl; lia.
    + apply IH. intros p H1 H2. apply (Hno (S p)); simpl; lia.
Qed.

(** The first match of [finditer] is the first occurrence. *)
Lemma finditer_head (q s : str) (p : nat) :
  Spec.first_occurrence ci_eqb q s p ->
  exists rest, finditer q s = (p, p + length q) :: rest.
Proof.
  intros [Hocc Hmin]. apply occurs_at_iff in Hocc as [Hle Hm].
  destruct (finditer_from_first q s 0 0 p) as
    (p0 & rest & _ & Hp0 & Hm0 & _ & Heq); [lia|assumption|assumption|].
  assert (p0 = p).
  { destruct (Nat.eq_dec p0 p) as [|Hne]; [assumption|].
    exfalso. apply (Hmin p0); [lia|]. apply occurs_at_iff. split; [lia|assumption]. }
  subst p0. exists rest. exact Heq.
Qed.

Lemma contains_first_occurrence (q s : str) :
  Spec.contains ci_eqb q s -> exists p, Spec.first_occurrence ci_eqb q s p.
Proof.
  intros [p Hocc]. apply occurs_at_iff in Hocc as [Hle Hm].
  destruct (finditer_from_first q s 0 0 p) as
    (p0 & rest & _ & Hp0 & Hm0 & Hmin & _); [lia|assumption|assumption|].
  exists p0. split.
  - apply occurs_at_iff. split; [lia|assumption].
  - intros p' Hlt Hocc'. apply occurs_at_iff in Hocc' as [_ Hm'].
    rewrite Hmin in Hm' by lia. discriminate.
Qed.

Lemma finditer_nil (q s : str) :
  ~ Spec.contains ci_eqb q s <-> finditer q s = [].
Proof.
  split.
  - intros Hno. apply finditer_from_none. intros p _ Hle.
    destruct (match_here q (skipn p s)) eqn:E; [|reflexivity].
    exfalso. apply Hno. exists p. apply occurs_at_iff. auto.
  - intros Hnil Hc. apply contains_first_occurrence in Hc as [p Hp].
    apply finditer_head in Hp as [rest Hp]. congruence.
Qed.

(** Every span of the scan is an occurrence. *)
Lemma finditer_from_sound (q s : str) :
  forall pos skip b e,
    In (b, e) (finditer_from q pos skip s) ->
    exists p,
      b = pos + p /\ skip <= p /\ p <= length s
      /\ match_here q (skipn p s) = true /\ e = b + length q.
Proof.
  induction s as [|c s IH]; intros pos skip b e Hin.
  - cbn [Re.finditer_from] in Hin.
    destruct ((skip =? 0) && match_here q []) eqn:E; [|contradiction].
    apply andb_true_iff in E as [Hs Hm]. apply Nat.eqb_eq in Hs.
    destruct Hin as [Heq|[]]. injection Heq as <- <-.
    exists 0. conjs; try lia; try assumption.
  - destruct skip as [|k]; cbn [Re.finditer_from] in Hin.
    + destruct (match_here q (c :: s)) eqn:Hhead.
      * destruct Hin as [Heq|Hin].
        -- injection Heq as <- <-. exists 0.
           conjs; try lia; try assumption.
        -- apply IH in Hin as (p & -> & H1 & H2 & H3 & ->).
           exists (S p). conjs; simpl; try lia; try assumption.
      * apply IH in Hin as (p & -> & H1 & H2 & H3 & ->).
        exists (S p). conjs; simpl; try lia; try assumption.
    + apply IH in Hin as (p & -> & H1 & H2 & H3 & ->).
      exists (S p). conjs; simpl; try lia; try assumption.
Qed.

(** Every occurrence at or after [skip] is a span of the scan, or begins
    inside one. *)
Lemma finditer_from_covers (q s : str) :
  forall pos skip p,
    skip <= p -> p <= length s -> match_here q (skipn p s) = true ->
    In (pos + p, pos + p + length q) (finditer_from q pos skip s)
    \/ exists b e, In (b, e) (finditer_from q pos skip s)
                   /\ b < pos + p /\ pos + p < e.
Proof.
  induction s as [|c s IH]; intros pos skip p Hskip Hp Hm.
  - simpl in Hp. assert (p = 0) by lia. subst p.
    assert (skip = 0) by lia. subst skip. cbn [skipn] in Hm.
    left. cbn [Re.finditer_from Nat.eqb andb]. rewrite Hm.
    rewrite !Nat.add_0_r. now left.
  - assert (Hlift : forall pos' p', S pos' + p' = pos' + S p')
      by (intros; lia).
    destruct skip as [|k]; cbn [Re.finditer_from].
    + destruct p as [|p].
      * cbn [skipn] in Hm. rewrite Hm. left. rewrite !Nat.add_0_r. now left.
      * cbn [skipn] in Hm. simpl in Hp.
        destruct (match_here q (c :: s)) eqn:Hhead.
        -- destruct (le_lt_dec (pred (length q)) p) as [Hge|Hlt].
           ++ destruct (IH (S pos) (pred (length q)) p Hge) as
                [Hin|(b & e & Hin & H1 & H2)]; [lia|assumption| |].
              ** left. right. now rewrite <- Hlift.
              ** right. exists b, e. conjs; [now right|lia|lia].
           ++ right. exists pos, (pos + length q).
              conjs; [now left|lia|lia].
        -- destruct (IH (S pos) 0 p) as
             [Hin|(b & e & Hin & H1 & H2)]; [lia|lia|assumption| |].
           ++ left. now rewrite <- Hlift.
           ++ right. exists b, e. conjs; [assumption|lia|lia].
    + destruct p as [|p]; [lia|]. cbn [skipn] in Hm. simpl in Hp.
      destruct (IH (S pos) k p) as
        [Hin|(b & e & Hin & H1 & H2)]; [lia|lia|assumption| |].
      * left. now rewrite <- Hlift.
      * right. exists b, e. conjs; [assumption|lia|lia].
Qed.

Lemma in_order_weaken (ms : list (nat * nat)) (a a' : nat) :
  a' <= a -> Spec.in_order a ms -> Spec.in_order a' ms.
Proof.
  destruct ms as [|[b e] ms]; [auto|].
  simpl. intros Hle (H1 & H2 & H3). conjs; [lia|assumption|assumption].
Qed.

Lemma finditer_from_in_order (q s : str) :
  forall pos skip, Spec.in_order (pos + skip) (finditer_from q pos skip s).
Proof.
  induction s as [|c s IH]; intros pos skip; cbn [Re.finditer_from].
  - destruct (skip =? 0) eqn:E; cbn [andb]; [|exact I].
    apply Nat.eqb_eq in E. subst.
    destruct (match_here q []); simpl; [lia|exact I].
  - destruct skip as [|k].
    + destruct (match_here q (c :: s)).
      * simpl. conjs; [lia|lia|].
        apply in_order_weaken with (a := S pos + pred (length q));
          [lia|apply IH].
      * apply in_order_weaken with (a := S pos + 0); [lia|apply IH].
    + replace (pos + S k) with (S pos + k) by lia. apply IH.
Qed.

(** Without the template the substitution copies the text. *)
Lemma expand_plain (s : str) (ms : list (nat * nat)) :
  forall last,
    Spec.in_order last ms -> Re.expand [] [] s last ms = skipn last s.
Proof.
  induction ms as [|[b e] ms IH]; intros last Hord; [reflexivity|].
  destruct Hord as (H1 & H2 & H3). cbn [Re.expand app].
  rewrite (IH e H3). unfold Re.span.
  replace (skipn e s) with (skipn (e - b) (skipn b s))
    by (rewrite skipn_skipn; f_equal; lia).
  rewrite firstn_skipn.
  replace (skipn b s) with (skipn (b - last) (skipn last s))
    by (rewrite skipn_skipn; f_equal; lia).
  apply firstn_skipn.
Qed.

End ReFacts.

(** ** Query construction *)

Section QueryFacts.

Import QueryServer.

Lemma quoted_query_eq (query : str) :
  quoted_query query
  = if contains_char " " query
    then [dq] ++ Spec.double_quotes query ++ [dq]
    else query.
Proof.
  unfold quoted_query, Spec.double_quotes.
  destruct (contains_char " " query); [|reflexivity].
  now rewrite replace_every_char.
Qed.

Lemma head_has_no_placeholder :
  ~ In "?"%char (sql_head ++ Spec.match_prefix).
Proof. apply contains_char_false. vm_compute. reflexivity. Qed.

Lemma tail_has_no_placeholder : ~ In "?"%char sql_tail.
Proof. apply contains_char_false. vm_compute. reflexivity. Qed.

Lemma match_placeholder_eq :
  match_placeholder = Spec.match_prefix ++ lit "?".
Proof. reflexivity. Qed.

(** The statement and parameters in every mode but [all]. *)
Lemma prepare_not_all (query search_type : str) :
  str_eqb search_type (lit "all") = false ->
  prepare query search_type
  = (sql_head ++ Spec.match_prefix
       ++ replace (lit "?") (quoted_query query) None
            (fts_query_sql search_type)
       ++ sql_tail,
     [search_type ++ lit ":" ++ quoted_query query]).
Proof.
  intros Hmode. unfold prepare, sql_template. rewrite Hmode.
  cbn [negb]. rewrite replace_same by discriminate.
  apply (f_equal2 pair); [|reflexivity].
  rewrite match_placeholder_eq.
  change (lit "?") with ["?"%char].
  replace (sql_head ++ (Spec.match_prefix ++ ["?"%char]) ++ sql_tail)
    with ((sql_head ++ Spec.match_prefix) ++ "?"%char :: sql_tail)
    by now rewrite <- !app_assoc.
  rewrite replace_first_char by apply head_has_no_placeholder.
  now rewrite <- app_assoc.
Qed.

Lemma prepare_all (query : str) :
  prepare query (lit "all")
  = (sql_head ++ match_placeholder ++ sql_tail,
     [lit "content:" ++ quoted_query query
        ++ lit " OR filename:" ++ quoted_query query]).
Proof. reflexivity. Qed.

Lemma spliced_clause (field query : str) :
  ~ In "?"%char field ->
  replace (lit "?") query None (field ++ lit ":?") = field ++ lit ":" ++ query.
Proof.
  intros Hf. change (lit "?") with ["?"%char].
  rewrite replace_every_char, flat_map_app. f_equal.
  - induction field as [|c f IH]; [reflexivity|].
    simpl in *. destruct (Ascii.eqb c "?") eqn:E.
    + apply Ascii.eqb_eq in E. subst. exfalso. auto.
    + simpl. f_equal. apply IH. auto.
  - simpl. now rewrite app_nil_r.
Qed.

(** Every executed statement ends with the ORDER BY and LIMIT clauses. *)
Lemma executed_sql_tail (query search_type : str) :
  exists where_clause,
    executed_sql query search_type = sql_head ++ where_clause ++ sql_tail.
Proof.
  unfold executed_sql.
  destruct (str_eqb search_type (lit "all")) eqn:Hmode.
  - apply str_eqb_eq in Hmode. subst. rewrite prepare_all.
    now exists match_placeholder.
  - rewrite prepare_not_all by assumption. cbn [fst].
    eexists. rewrite <- app_assoc. reflexivity.
Qed.

Lemma count_placeholder_quoted (query : str) :
  Spec.placeholders (quoted_query query)
  = Spec.placeholders query.
Proof.
  rewrite quoted_query_eq. destruct (contains_char " " query); [|reflexivity].
  unfold Spec.placeholders.
  rewrite !count_occ_app. change (count_occ ascii_dec [dq] "?"%char) with 0.
  rewrite Nat.add_0_r. cbn [Nat.add]. unfold Spec.double_quotes.
  induction query as [|c q IH]; [reflexivity|].
  cbn [flat_map]. rewrite count_occ_app, IH.
  destruct (Ascii.eqb c dq) eqn:E.
  - apply Ascii.eqb_eq in E. subst c. reflexivity.
  - change (c :: q) with ([c] ++ q). now rewrite count_occ_app.
Qed.

End QueryFacts.

Section QueryClaims.

Import QueryServer.

(** C1 (amended): a query that contains a space character is wrapped in
    double quotes after every embedded double quote has been doubled, and
    a query that contains no space character is passed on unchanged; the
    value so obtained is the one the match expression of mode [content]
    is built from. *)
Theorem quoted_query_by_space (query : str) :
  (In " "%char query ->
   quoted_query query = [dq] ++ Spec.double_quotes query ++ [dq])
  /\ (~ In " "%char query -> quoted_query query = query)
  /\ bound_params query (lit "content")
     = [lit "content:" ++ quoted_query query].
Proof.
  split; [|split].
  - intros H. apply contains_char_In in H. now rewrite quoted_query_eq, H.
  - intros H. apply contains_char_false in H. now rewrite quoted_query_eq, H.
  - unfold bound_params. rewrite prepare_not_all by reflexivity. reflexivity.
Qed.

Lemma quoted_query_by_space_witness :
  In " "%char (lit "new york")
  /\ quoted_query (lit "new york") = [dq] ++ lit "new york" ++ [dq]
  /\ ~ In " "%char (lit "york")
  /\ quoted_query (lit "york") = lit "york".
Proof.
  assert (Hs : In " "%char (lit "new york")) by (simpl; auto 10).
  assert (Hn : ~ In " "%char (lit "york"))
    by (apply contains_char_false; reflexivity).
  split; [exact Hs|]. split.
  - exact (proj1 (quoted_query_by_space (lit "new york")) Hs).
  - split; [exact Hn|].
    exact (proj1 (proj2 (quoted_query_by_space (lit "york"))) Hn).
Defined.

(** C1 as stated fails on whitespace other than the space character: a
    query with a tab is not quoted. *)
Lemma tab_query_not_quoted :
  let query := [ "a"%char; tab; "b"%char ] in
  contains_whitespace query = true
  /\ quoted_query query = query
  /\ quoted_query query <> [dq] ++ Spec.double_quotes query ++ [dq].
Proof. repeat split. discriminate. Qed.




(** C10: in the modes [content] and [filename], [search_database] calls
    the datastore with the fixed text in which the match clause (mode
    name, colon, quoted query) is written in place of the placeholder,
    and with the match clause once more as the single bind parameter; its
    results are those of that call.  The fixed text holds no question
    mark, so the only question marks of the executed statement are those
    of the query. *)
Theorem match_clause_spliced_into_sql (ci_eqb : ascii -> ascii -> bool)
  (db : datastore) (query : str) (L : Z) (search_type : str) :
  In search_type [lit "content"; lit "filename"] ->
  let clause := search_type ++ lit ":" ++ quoted_query query in
  let sql := sql_head ++ Spec.match_prefix ++ clause ++ sql_tail in
  search_database ci_eqb (Some db) query L search_type
  = match db sql [clause] with
    | Rows rows => map (process_row ci_eqb query L) rows
    | Raises _ => []
    end
  /\ executed_sql query search_type = sql
  /\ bound_params query search_type = [clause]
  /\ ~ In "?"%char (sql_head ++ Spec.match_prefix)
  /\ ~ In "?"%char sql_tail
  /\ Spec.placeholders sql = Spec.placeholders query.
Proof.
  intros Hmode clause sql.
  assert (Hprep : prepare query search_type = (sql, [clause])).
  { unfold sql, clause.
    destruct Hmode as [<-|[<-|[]]]; rewrite prepare_not_all by reflexivity.
    - change (fts_query_sql (lit "content")) with (lit "content" ++ lit ":?").
      now rewrite spliced_clause by (apply contains_char_false; reflexivity).
    - change (fts_query_sql (lit "filename")) with (lit "filename" ++ lit ":?").
      now rewrite spliced_clause by (apply contains_char_false; reflexivity). }
  split; [|split; [|split; [|split; [|split]]]].
  - unfold search_database. now rewrite Hprep.
  - unfold executed_sql. now rewrite Hprep.
  - unfold bound_params. now rewrite Hprep.
  - apply head_has_no_placeholder.
  - apply tail_has_no_placeholder.
  - unfold sql, clause.
    rewrite <- (count_placeholder_quoted query).
    unfold Spec.placeholders. rewrite !count_occ_app.
    fold (Spec.placeholders sql_head) (Spec.placeholders Spec.match_prefix)
      (Spec.placeholders sql_tail) (Spec.placeholders (lit ":"))
      (Spec.placeholders search_type).
    replace (Spec.placeholders sql_head) with 0 by reflexivity.
    replace (Spec.placeholders Spec.match_prefix) with 0 by reflexivity.
    replace (Spec.placeholders sql_tail) with 0 by reflexivity.
    replace (Spec.placeholders (lit ":")) with 0 by reflexivity.
    replace (Spec.placeholders search_type) with 0; [lia|].
    destruct Hmode as [<-|[<-|[]]]; reflexivity.
Qed.

Lemma match_clause_spliced_into_sql_witness :
  search_database Re.ascii_ci_eqb (Some Sample2.spliced_only) (lit "x;--") 3
    (lit "content")
  = [process_row Re.ascii_ci_eqb (lit "x;--") 3 Sample.fox_row]
  /\ executed_sql (lit "x;--") (lit "content")
     = sql_head ++ Spec.match_prefix ++ lit "content:x;--" ++ sql_tail
  /\ bound_params (lit "x;--") (lit "content") = [lit "content:x;--"].
Proof.
  assert (Hin : In (lit "content") [lit "content"; lit "filename"])
    by (left; reflexivity).
  pose proof (match_clause_spliced_into_sql Re.ascii_ci_eqb
                Sample2.spliced_only (lit "x;--") 3 (lit "content") Hin)
    as H.
  cbv zeta in H. destruct H as (H1 & H2 & H3 & _).
  split; [|split; [exact H2 | exact H3]].
  rewrite H1. reflexivity.
Defined.

End QueryClaims.

(** ** Snippets and highlighting *)

Section SliceFacts.

Context {A : Type}.

(** Between bounds that are not negative, a slice is the substring. *)
Lemma slice_window (s : list A) (a b : Z) :
  (0 <= a)%Z -> (0 <= b <= Z.of_nat (length s))%Z ->
  slice s a b = Spec.substring s a b.
Proof.
  intros Ha Hb. unfold slice, adjust_index, Spec.substring.
  destruct (Z.ltb_spec a 0); [lia|]. destruct (Z.ltb_spec b 0); [lia|].
  rewrite (Z.min_l b) by lia.
  destruct (Z_le_gt_dec a (Z.of_nat (length s))) as [Hle|Hgt].
  - now rewrite Z.min_l by lia.
  - rewrite Z.min_r by lia.
    replace (Z.to_nat (b - Z.of_nat (length s))) with 0 by lia.
    replace (Z.to_nat (b - a)) with 0 by lia. reflexivity.
Qed.

(** Up to a bound that is not negative, a slice is a prefix. *)
Lemma slice_prefix (s : list A) (k : Z) :
  (0 <= k)%Z -> slice s 0 k = Spec.first_chars s k.
Proof.
  intros Hk. unfold slice, adjust_index, Spec.first_chars.
  destruct (Z.ltb_spec k 0); [lia|]. cbn [Z.ltb Z.compare].
  rewrite (Z.min_l 0) by lia. cbn [Z.to_nat skipn]. rewrite Z.sub_0_r.
  destruct (Z_le_gt_dec k (Z.of_nat (length s))) as [Hle|Hgt].
  - now rewrite Z.min_l by lia.
  - rewrite Z.min_r by lia. rewrite Nat2Z.id.
    rewrite firstn_all. symmetry. apply firstn_all2. lia.
Qed.

End SliceFacts.

Section SnippetClaims.

Import QueryServer.

Variable ci_eqb : ascii -> ascii -> bool.

(** C2 (amended): when the content contains the query, it has a first
    occurrence [p], and the snippet is built around it: provided
    [p + len(query) + snippet_length] is not negative (as for every snippet
    length that is not negative), the snippet is the substring from
    [max(0, p - L)] to [min(len(content), p + len(query) + L)], with an
    ellipsis in front iff the start is above 0 and an ellipsis behind iff
    the end is below [len(content)]. *)
Theorem snippet_around_first_match (query full_content : str) (L : Z) :
  Spec.contains ci_eqb query full_content ->
  exists p,
    Spec.first_occurrence ci_eqb query full_content p
    /\ ((0 <= Z.of_nat (p + length query) + L)%Z ->
        make_snippet ci_eqb query full_content L
        = Spec.window_snippet full_content p (length query) L).
Proof.
  intros Hc. destruct (contains_first_occurrence _ _ _ Hc) as [p Hp].
  exists p. split; [assumption|]. intros HL.
  destruct (finditer_head _ _ _ _ Hp) as [rest Hm].
  unfold make_snippet, Spec.window_snippet. rewrite Hm.
  set (len := Z.of_nat (length full_content)).
  set (start := Z.max 0 (Z.of_nat p - L)).
  set (end_ := Z.min len (Z.of_nat (p + length query) + L)).
  rewrite Z.gtb_ltb.
  rewrite slice_window by (unfold start, end_; fold len; lia).
  destruct (0 <? start)%Z, (end_ <? len)%Z; cbn [app];
    rewrite <- ?app_assoc, ?app_nil_r; reflexivity.
Qed.

(** C5 (amended): when the content does not contain the query and the
    snippet length is not negative, the snippet is the first
    [2 * snippet_length] characters of the content, followed by an
    ellipsis iff the content is longer than that. *)
Theorem snippet_fallback (query full_content : str) (L : Z) :
  ~ Spec.contains ci_eqb query full_content ->
  (0 <= L)%Z ->
  make_snippet ci_eqb query full_content L
  = Spec.fallback_snippet full_content L.
Proof.
  intros Hno HL. apply finditer_nil in Hno.
  unfold make_snippet, Spec.fallback_snippet. rewrite Hno.
  rewrite Z.gtb_ltb, (Z.mul_comm L 2).
  now rewrite slice_prefix by lia.
Qed.

(** C3 (amended): the highlighted snippet is the snippet with the template
    around the spans of the left-to-right scan.  Every such span is a
    case-insensitive occurrence of the query in the snippet; every
    occurrence in the snippet is such a span, unless it begins inside a
    span found before it; the spans are in order and disjoint; and with
    the markup left out the result is the snippet itself, so that no
    text outside the window is part of it. *)
Theorem highlight_wraps_scanned_occurrences (query snippet_text : str) :
  let spans := Re.finditer ci_eqb query snippet_text in
  highlight ci_eqb query snippet_text
  = Re.expand highlight_open highlight_close snippet_text 0 spans
  /\ (forall b e, In (b, e) spans ->
        Spec.occurs_at ci_eqb query snippet_text b /\ e = b + length query)
  /\ (forall p, Spec.occurs_at ci_eqb query snippet_text p ->
        In (p, p + length query) spans
        \/ exists b e, In (b, e) spans /\ b < p /\ p < e)
  /\ Spec.in_order 0 spans
  /\ Re.expand [] [] snippet_text 0 spans = snippet_text
  /\ (forall L r,
        snippet (process_row ci_eqb query L r)
        = highlight ci_eqb query
            (make_snippet ci_eqb query (r_content r) L)).
Proof.
  intros spans. split; [reflexivity|].
  split; [|split; [|split; [|split]]].
  - intros b e Hin.
    apply finditer_from_sound in Hin as (p & -> & _ & Hle & Hm & ->).
    split; [|reflexivity]. apply occurs_at_iff. auto.
  - intros p Hocc. apply occurs_at_iff in Hocc as [Hle Hm].
    apply (finditer_from_covers ci_eqb query snippet_text 0 0 p);
      [lia|assumption|assumption].
  - apply (finditer_from_in_order ci_eqb query snippet_text 0 0).
  - apply (expand_plain snippet_text spans 0).
    apply (finditer_from_in_order ci_eqb query snippet_text 0 0).
  - intros L r. reflexivity.
Qed.

End SnippetClaims.

(** *** Instances on ASCII text *)

Section SnippetExamples.

Import QueryServer.

Local Abbreviation ci := Re.ascii_ci_eqb.

Example fox_snippet :
  make_snippet ci (lit "QUICK") (lit "the quick brown fox") 3
  = lit "...he quick br...".
Proof. reflexivity. Qed.

Example fox_highlight :
  highlight ci (lit "QUICK") (lit "...he quick br...")
  = lit "...he " ++ highlight_open ++ lit "quick" ++ highlight_close
      ++ lit " br...".
Proof. reflexivity. Qed.

Example empty_pattern_spans :
  Re.finditer ci [] (lit "ab") = [(0, 0); (1, 1); (2, 2)].
Proof. reflexivity. Qed.

Lemma snippet_around_first_match_witness :
  Spec.contains ci (lit "QUICK") (lit "the quick brown fox")
  /\ exists p,
       Spec.first_occurrence ci (lit "QUICK") (lit "the quick brown fox") p
       /\ make_snippet ci (lit "QUICK") (lit "the quick brown fox") 3
          = Spec.window_snippet (lit "the quick brown fox") p 5 3.
Proof.
  assert (Hc : Spec.contains ci (lit "QUICK") (lit "the quick brown fox")).
  { exists 4, (lit "the "), (lit "quick"), (lit " brown fox").
    split; [reflexivity|]. split; [reflexivity|].
    repeat constructor. }
  split; [exact Hc|].
  destruct (snippet_around_first_match ci (lit "QUICK")
              (lit "the quick brown fox") 3 Hc) as (p & Hp & Hs).
  exists p. split; [exact Hp|]. apply Hs. lia.
Defined.

(** C2 as stated fails for a negative snippet length: the end bound
    [min(len, 1 - 3) = -2] is taken from the end of the content, so the
    snippet is not the substring between the two bounds. *)
Lemma negative_length_window_counts_from_end :
  let content := lit "abcdefghij" in
  let query := lit "a" in
  Spec.first_occurrence ci query content 0
  /\ make_snippet ci query content (-3) = lit "...defgh..."
  /\ Spec.window_snippet content 0 (length query) (-3) = lit "......"
  /\ make_snippet ci query content (-3)
     <> Spec.window_snippet content 0 (length query) (-3).
Proof.
  cbv zeta. split; [|split; [reflexivity|split; [reflexivity|discriminate]]].
  split; [|intros p' Hlt; inversion Hlt].
  exists [], (lit "a"), (lit "bcdefghij").
  split; [reflexivity|]. split; [reflexivity|]. repeat constructor.
Qed.

Lemma snippet_fallback_witness :
  ~ Spec.contains ci (lit "z") (lit "abcdefghij")
  /\ make_snippet ci (lit "z") (lit "abcdefghij") 3 = lit "abcdef...".
Proof.
  assert (Hno : ~ Spec.contains ci (lit "z") (lit "abcdefghij"))
    by (apply finditer_nil; reflexivity).
  split; [exact Hno|].
  exact (snippet_fallback ci (lit "z") (lit "abcdefghij") 3 Hno
           ltac:(lia)).
Defined.

(** C5 as stated fails for a negative snippet length: [content[:-6]] drops
    the last six characters instead of taking none. *)
Lemma negative_length_fallback_counts_from_end :
  let content := lit "abcdefghij" in
  let query := lit "z" in
  ~ Spec.contains ci query content
  /\ make_snippet ci query content (-3) = lit "abcd..."
  /\ Spec.fallback_snippet content (-3) = lit "..."
  /\ make_snippet ci query content (-3)
     <> Spec.fallback_snippet content (-3).
Proof.
  cbv zeta. split; [|split; [reflexivity|split; [reflexivity|discriminate]]].
  apply finditer_nil. reflexivity.
Qed.

Lemma highlight_wraps_scanned_occurrences_witness :
  (Spec.occurs_at ci (lit "fox") (lit "a Fox, a FOX") 2 /\ 5 = 2 + 3)
  /\ (In (9, 12) (Re.finditer ci (lit "fox") (lit "a Fox, a FOX"))
      \/ exists b e,
           In (b, e) (Re.finditer ci (lit "fox") (lit "a Fox, a FOX"))
           /\ b < 9 /\ 9 < e).
Proof.
  pose proof (highlight_wraps_scanned_occurrences ci (lit "fox")
                (lit "a Fox, a FOX")) as H.
  cbv zeta in H. destruct H as (_ & Hsound & Hcover & _ & _ & _).
  split.
  - apply (Hsound 2 5). simpl. auto.
  - apply (Hcover 9).
    exists (lit "a Fox, a "), (lit "FOX"), [].
    split; [reflexivity|]. split; [reflexivity|]. repeat constructor.
Defined.

(** C3 as stated fails for overlapping occurrences: in [aaa] the query
    [aa] occurs at 0 and at 1, and only the first is wrapped. *)
Lemma overlapping_occurrence_not_wrapped :
  let query := lit "aa" in
  let snippet_text := lit "aaa" in
  Spec.occurs_at ci query snippet_text 1
  /\ Re.finditer ci query snippet_text = [(0, 2)]
  /\ ~ In (1, 3) (Re.finditer ci query snippet_text)
  /\ highlight ci query snippet_text
     = highlight_open ++ lit "aa" ++ highlight_close ++ lit "a".
Proof.
  cbv zeta. split; [|split; [reflexivity|split; [|reflexivity]]].
  - exists (lit "a"), (lit "aa"), [].
    split; [reflexivity|]. split; [reflexivity|]. repeat constructor.
  - intros [H|[]]. discriminate.
Qed.

End SnippetExamples.

(** ** The search operation and the request handler *)

Section SearchClaims.

Import QueryServer.

Variable ci_eqb : ascii -> ascii -> bool.

Variable int_of_str : str -> option Z.

(** When the datastore raises on the statement of a search, the handler
    answers with status 200, an empty result list and count 0, which is
    also its answer when the datastore returns no row. *)
Lemma query_error_answered_as_empty (db db' : datastore)
  (data : request) (q : str) (L : Z) (msg : str) :
  let search_type := get (search_type_field data) (JStr (lit "content")) in
  query_field data = Some (JStr q) ->
  q <> [] ->
  py_int int_of_str (get (snippet_length_field data) (JInt 1000)) = inr L ->
  db (executed_sql q (py_str search_type)) (bound_params q (py_str search_type))
  = Raises msg ->
  db' (executed_sql q (py_str search_type)) (bound_params q (py_str search_type))
  = Rows [] ->
  search ci_eqb int_of_str (Some db) data
  = Respond 200 (SearchBody (JStr q) [] 0 search_type)
  /\ search ci_eqb int_of_str (Some db') data
     = search ci_eqb int_of_str (Some db) data.
Proof.
  intros search_type Hq Hne HL Hraise Hempty.
  unfold search, call_search_database, search_database.
  rewrite Hq, HL. cbn [get truthy].
  destruct q as [|c q]; [congruence|]. cbn [length Nat.eqb negb].
  fold search_type. unfold executed_sql, bound_params in *.
  destruct (prepare (c :: q) (py_str search_type)) as [sql q_params].
  cbn [fst snd] in *. rewrite Hraise, Hempty. split; reflexivity.
Qed.

(** C9 (amended): without a datastore connection the handler answers 500,
    whatever the body; with a connection, a snippet length that is absent
    or converts to an integer, and a query field that is missing or
    empty, it answers 400. *)
Theorem search_status_codes (db_client : option datastore) (data : request) :
  (db_client = None ->
   search ci_eqb int_of_str db_client data
   = Respond 500 (ErrorBody (lit "Database connection not available")))
  /\ (forall db L,
        db_client = Some db ->
        py_int int_of_str (get (snippet_length_field data) (JInt 1000))
        = inr L ->
        query_field data = None \/ query_field data = Some (JStr []) ->
        search ci_eqb int_of_str db_client data
        = Respond 400 (ErrorBody (lit "Query is required"))).
Proof.
  split.
  - intros ->. reflexivity.
  - intros db L -> HL Hq. unfold search. rewrite HL.
    destruct Hq as [-> | ->]; reflexivity.
Qed.

(** A search type that is not a string never names a mode. *)
Lemma py_str_names_no_mode (v : json) (mode : str) :
  In mode [lit "content"; lit "filename"; lit "all"] ->
  py_str v = mode -> v = JStr mode.
Proof.
  intros Hmode Hv. destruct v as [|b|z|s]; cbn [py_str] in Hv.
  - destruct Hmode as [<-|[<-|[<-|[]]]]; discriminate.
  - destruct b; destruct Hmode as [<-|[<-|[<-|[]]]]; discriminate.
  - exfalso. destruct z as [|n|n]; cbn in Hv;
      [destruct Hmode as [<-|[<-|[<-|[]]]]; discriminate | |].
    + destruct (Pos.to_uint n) eqn:E;
        destruct Hmode as [<-|[<-|[<-|[]]]]; try discriminate.
    + destruct Hmode as [<-|[<-|[<-|[]]]]; discriminate.
  - now subst.
Qed.

End SearchClaims.

Section SearchExamples.

Import QueryServer Sample.

Local Abbreviation ci := Re.ascii_ci_eqb.

Example two_rows_snippets :
  map snippet (search_database ci (Some db_two_rows) (lit "quick") 3
                 (lit "all"))
  = [ lit "...he " ++ highlight_open ++ lit "quick" ++ highlight_close
        ++ lit " br...";
      lit "...he " ++ highlight_open ++ lit "quick" ++ highlight_close
        ++ lit " ca..." ].
Proof. reflexivity. Qed.

(** C7, the code at a failing input: the query is one double quote in
    mode [all] and the datastore raises on the statement; the handler
    answers 200 with an empty result list and count 0, exactly as it does
    when the datastore returns no row; the error is not in the response. *)
Theorem failed_query_answered_like_no_match :
  search ci simple_int_of_str (Some db_raising) lone_quote_request
  = Respond 200 (SearchBody (JStr [dq]) [] 0 (JStr (lit "all")))
  /\ search ci simple_int_of_str (Some db_no_rows) lone_quote_request
     = search ci simple_int_of_str (Some db_raising) lone_quote_request.
Proof. split; reflexivity. Qed.

Lemma search_status_codes_witness :
  search ci simple_int_of_str None lone_quote_request
  = Respond 500 (ErrorBody (lit "Database connection not available"))
  /\ search ci simple_int_of_str (Some db_two_rows) empty_query_request
     = Respond 400 (ErrorBody (lit "Query is required")).
Proof.
  split.
  - apply (proj1 (search_status_codes ci simple_int_of_str None
                    lone_quote_request)).
    reflexivity.
  - apply (proj2 (search_status_codes ci simple_int_of_str
                    (Some db_two_rows) empty_query_request)
             db_two_rows 1000%Z).
    + reflexivity.
    + reflexivity.
    + right. reflexivity.
Defined.

(** C9 as stated fails when both of its conditions hold: an empty query
    sent while the connection is unavailable is answered 500, not 400. *)
Lemma empty_query_without_connection_gets_500 :
  search ci simple_int_of_str None empty_query_request
  = Respond 500 (ErrorBody (lit "Database connection not available"))
  /\ forall b, search ci simple_int_of_str None empty_query_request
               <> Respond 400 b.
Proof. split; [reflexivity|]. intros b. discriminate. Qed.

(** The conversion of line 142 comes before the test of the query: with a
    snippet length that does not convert, the exception leaves the
    handler. *)
Example bad_length_escapes :
  search ci simple_int_of_str (Some db_two_rows) bad_length_request
  = Escapes ValueError.
Proof. reflexivity. Qed.

End SearchExamples.

(** ** The indexer *)

Section IndexerFacts.

Import Indexer.

Local Abbreviation paths := Spec.paths.
Local Abbreviation settled := Spec.settled.

Lemma has_path_exists (p : str) (t : table) :
  existsb (has_path p) t = true <-> In p (paths t).
Proof.
  unfold Spec.paths. rewrite existsb_exists, in_map_iff. unfold has_path.
  split; intros (d & H1 & H2).
  - apply str_eqb_eq in H2. eauto.
  - exists d. split; [assumption|]. now apply str_eqb_eq.
Qed.

Lemma insert_or_ignore_present (t : table) (fname p text : str)
  (url : option str) :
  In p (paths t) -> insert_or_ignore t fname p text url = t.
Proof.
  intros Hin. apply has_path_exists in Hin.
  unfold insert_or_ignore. now rewrite Hin.
Qed.

Lemma insert_or_ignore_paths (t : table) (fname p text : str)
  (url : option str) :
  In p (paths (insert_or_ignore t fname p text url))
  /\ (forall p', In p' (paths t) ->
                 In p' (paths (insert_or_ignore t fname p text url))).
Proof.
  unfold insert_or_ignore.
  destruct (existsb (has_path p) t) eqn:E.
  - split; [now apply has_path_exists|auto].
  - unfold Spec.paths. rewrite map_app. split.
    + apply in_or_app. right. now left.
    + intros p' Hin. apply in_or_app. now left.
Qed.

Lemma insert_or_ignore_unique (t : table) (fname p text : str)
  (url : option str) :
  NoDup (paths t) -> NoDup (paths (insert_or_ignore t fname p text url)).
Proof.
  intros Hnd. unfold insert_or_ignore.
  destruct (existsb (has_path p) t) eqn:E; [assumption|].
  unfold Spec.paths. rewrite map_app. cbn [map filepath].
  apply NoDup_app; [assumption|repeat constructor; auto|].
  intros x Hx [<-|[]].
  apply has_path_exists in Hx. congruence.
Qed.

(** Under the UNIQUE constraint a path that is present has one row. *)
Lemma rows_for_unique (p : str) (t : table) :
  NoDup (paths t) -> In p (paths t) -> rows_for p t = 1.
Proof.
  unfold rows_for, Spec.paths. induction t as [|d t IH]; intros Hnd Hin.
  - destruct Hin.
  - cbn [map] in Hnd, Hin. inversion Hnd as [|? ? Hnot Hnd']; subst.
    cbn [filter]. unfold has_path at 1.
    destruct (str_eqb (filepath d) p) eqn:E.
    + apply str_eqb_eq in E. subst p. cbn [length]. f_equal.
      destruct (filter (has_path (filepath d)) t) as [|d' r] eqn:F;
        [reflexivity|].
      exfalso. apply Hnot.
      assert (Hd' : In d' (filter (has_path (filepath d)) t))
        by (rewrite F; now left).
      apply filter_In in Hd' as [Hd' Hp]. unfold has_path in Hp.
      apply str_eqb_eq in Hp. rewrite <- Hp. now apply in_map.
    + destruct Hin as [Heq|Hin].
      * rewrite Heq, str_eqb_refl in E. discriminate.
      * now apply IH.
Qed.

Lemma index_one_settled (t : table) (f : file) :
  settled f t -> index_one t f = t.
Proof.
  unfold index_one. intros [H|[H|H]].
  - now rewrite H.
  - rewrite H. now destruct (f_read f).
  - destruct (f_read f); [|reflexivity].
    destruct (f_insert_raises f); [reflexivity|].
    now apply insert_or_ignore_present.
Qed.

Lemma index_one_paths (t : table) (f : file) (p : str) :
  In p (paths t) -> In p (paths (index_one t f)).
Proof.
  intros Hin. unfold index_one.
  destruct (f_read f); [|assumption].
  destruct (f_insert_raises f); [assumption|].
  now apply insert_or_ignore_paths.
Qed.

Lemma index_one_settles (t : table) (f : file) :
  settled f (index_one t f).
Proof.
  unfold Spec.settled, index_one.
  destruct (f_read f); [|now left].
  destruct (f_insert_raises f); [right; now left|].
  right. right. apply (proj1 (insert_or_ignore_paths _ _ _ _ _)).
Qed.

Lemma settled_index_one (t : table) (f g : file) :
  settled f t -> settled f (index_one t g).
Proof.
  intros [H|[H|H]]; [now left|right; now left|].
  right. right. now apply index_one_paths.
Qed.

Lemma settled_index_text_files (files : list file) :
  forall t f, settled f t -> settled f (index_text_files files t).
Proof.
  induction files as [|g files IH]; intros t f Hs; [assumption|].
  apply IH. now apply settled_index_one.
Qed.

Lemma index_text_files_settles (files : list file) :
  forall t f, In f files -> settled f (index_text_files files t).
Proof.
  induction files as [|g files IH]; intros t f Hin; [destruct Hin|].
  destruct Hin as [->|Hin]; cbn [index_text_files fold_left].
  - apply settled_index_text_files, index_one_settles.
  - now apply IH.
Qed.

Lemma index_text_files_settled (files : list file) :
  forall t, (forall f, In f files -> settled f t) ->
            index_text_files files t = t.
Proof.
  induction files as [|g files IH]; intros t Hall; [reflexivity|].
  cbn [index_text_files fold_left].
  rewrite index_one_settled by (apply Hall; now left).
  apply IH. intros f Hin. apply Hall. now right.
Qed.

Lemma index_text_files_unique (files : list file) :
  forall t, NoDup (paths t) -> NoDup (paths (index_text_files files t)).
Proof.
  induction files as [|g files IH]; intros t Hnd; [assumption|].
  apply IH. unfold index_one.
  destruct (f_read g); [|assumption].
  destruct (f_insert_raises g); [assumption|].
  now apply insert_or_ignore_unique.
Qed.

(** C8: when the path of a file has a row already, processing the file
    again leaves the whole table as it was, so the stored content and image
    URL of that path are untouched, and under the UNIQUE constraint the
    path keeps exactly one row; a second run over the same corpus leaves
    the table of the first run unchanged; the paths stay unique
    throughout. *)
Theorem reingestion_changes_nothing (t : table) (f : file)
  (files : list file) :
  (In (f_path f) (map filepath t) ->
   index_one t f = t
   /\ (NoDup (map filepath t) -> rows_for (f_path f) (index_one t f) = 1))
  /\ index_text_files files (index_text_files files t)
     = index_text_files files t
  /\ (NoDup (map filepath t) ->
      NoDup (map filepath (index_text_files files t))).
Proof.
  split; [|split].
  - intros Hin.
    assert (Heq : index_one t f = t)
      by (apply index_one_settled; right; now right).
    split; [assumption|]. intros Hnd. rewrite Heq.
    now apply rows_for_unique.
  - apply index_text_files_settled. intros g Hin.
    now apply index_text_files_settles.
  - apply index_text_files_unique.
Qed.

End IndexerFacts.

Section IndexerExamples.

Import Indexer Sample.

Lemma reingestion_changes_nothing_witness :
  index_one [fox_document] fox_file_again = [fox_document]
  /\ rows_for (lit "/TEXT/001/fox.txt")
       (index_one [fox_document] fox_file_again) = 1.
Proof.
  assert (Hin : In (f_path fox_file_again) (map filepath [fox_document]))
    by (left; reflexivity).
  assert (Hnd : NoDup (map filepath [fox_document]))
    by (repeat constructor; intros []).
  destruct (proj1 (reingestion_changes_nothing [fox_document]
                     fox_file_again []) Hin) as [Heq Hrows].
  split; [exact Heq | exact (Hrows Hnd)].
Defined.

Example corpus_run :
  map filepath
    (index_text_files [fox_file_again; dog_file; unreadable_file]
       [fox_document])
  = [lit "/TEXT/001/fox.txt"; lit "/TEXT/001/dog.txt"]
  /\ map content
       (index_text_files [fox_file_again; dog_file; unreadable_file]
          [fox_document])
     = [lit "the quick brown fox"; lit "the lazy dog"]
  /\ map id
       (index_text_files [fox_file_again; dog_file; unreadable_file]
          [fox_document])
     = [1; 2]%Z.
Proof. repeat split. Qed.

End IndexerExamples.

(** * Further properties of the query server *)

Section StatementFacts.

Import QueryServer.

Lemma replace_trailing_placeholder (before query : str) :
  ~ In "?"%char before ->
  replace (lit "?") query None (before ++ lit "?") = before ++ query.
Proof.
  intros Hb. change (lit "?") with ["?"%char].
  rewrite replace_every_char, flat_map_app. f_equal.
  - induction before as [|c b IH]; [reflexivity|].
    simpl in *. destruct (Ascii.eqb c "?") eqn:E.
    + apply Ascii.eqb_eq in E. subst. exfalso. auto.
    + simpl. f_equal. apply IH. auto.
  - simpl. now rewrite app_nil_r.
Qed.

Lemma str_eqb_neq (a b : str) : a <> b -> str_eqb a b = false.
Proof.
  intros Hne. destruct (str_eqb a b) eqn:E; [|reflexivity].
  apply str_eqb_eq in E. contradiction.
Qed.

(** The statement of the modes [content] and [filename]. *)
Lemma executed_sql_scoped (query search_type : str) :
  In search_type [lit "content"; lit "filename"] ->
  executed_sql query search_type
  = sql_head ++ Spec.match_prefix
      ++ (search_type ++ lit ":" ++ quoted_query query) ++ sql_tail
  /\ bound_params query search_type
     = [search_type ++ lit ":" ++ quoted_query query].
Proof.
  unfold executed_sql, bound_params.
  intros [<-|[<-|[]]]; rewrite prepare_not_all by reflexivity; cbn [fst snd].
  - change (fts_query_sql (lit "content")) with (lit "content" ++ lit ":?").
    now rewrite spliced_clause by (apply contains_char_false; reflexivity).
  - change (fts_query_sql (lit "filename")) with (lit "filename" ++ lit ":?").
    now rewrite spliced_clause by (apply contains_char_false; reflexivity).
Qed.

(** X1: a search type that is none of the three mode names is not treated as
    [all]: the WHERE condition becomes [text_files_fts MATCH text_files_fts
    MATCH Q], with the quoted query [Q] written into the statement, and
    the bind parameter is the search type, a colon and [Q]. *)
Theorem unknown_mode_statement (query search_type : str) :
  search_type <> lit "content" ->
  search_type <> lit "filename" ->
  search_type <> lit "all" ->
  executed_sql query search_type
  = sql_head ++ Spec.match_prefix ++ Spec.match_prefix
      ++ quoted_query query ++ sql_tail
  /\ bound_params query search_type
     = [search_type ++ lit ":" ++ quoted_query query].
Proof.
  intros Hc Hf Ha. unfold executed_sql, bound_params.
  rewrite prepare_not_all by now apply str_eqb_neq. cbn [fst snd].
  split; [|reflexivity]. unfold fts_query_sql.
  rewrite (str_eqb_neq _ _ Hc), (str_eqb_neq _ _ Hf).
  change (lit "text_files_fts MATCH ?") with (Spec.match_prefix ++ lit "?").
  rewrite replace_trailing_placeholder
    by (apply contains_char_false; reflexivity).
  now rewrite <- app_assoc.
Qed.

Lemma unknown_mode_statement_witness :
  executed_sql (lit "fox") (lit "title")
  = sql_head ++ lit "text_files_fts MATCH text_files_fts MATCH fox"
      ++ sql_tail
  /\ bound_params (lit "fox") (lit "title") = [lit "title:fox"].
Proof.
  apply (unknown_mode_statement (lit "fox") (lit "title")); discriminate.
Defined.

Lemma placeholders_app (a b : str) :
  Spec.placeholders (a ++ b) = Spec.placeholders a + Spec.placeholders b.
Proof. unfold Spec.placeholders. apply count_occ_app. Qed.

(** X2: in mode [all] the statement has one placeholder and one parameter is
    bound.  In the modes [content] and [filename] one parameter is bound
    as well, while the statement has as many placeholders as the query
    has question marks: the two numbers agree only for a query with
    exactly one question mark. *)
Theorem placeholders_and_parameters (query : str) :
  (Spec.placeholders (executed_sql query (lit "all")) = 1
   /\ length (bound_params query (lit "all")) = 1)
  /\ forall search_type,
       In search_type [lit "content"; lit "filename"] ->
       length (bound_params query search_type) = 1
       /\ Spec.placeholders (executed_sql query search_type)
          = Spec.placeholders query
       /\ (Spec.placeholders (executed_sql query search_type)
           = length (bound_params query search_type)
           <-> Spec.placeholders query = 1).
Proof.
  split.
  - unfold executed_sql, bound_params. rewrite prepare_all. cbn [fst snd].
    split; reflexivity.
  - intros search_type Hmode.
    destruct (executed_sql_scoped query search_type Hmode) as [Hsql Hpar].
    assert (Hcount : Spec.placeholders (executed_sql query search_type)
                     = Spec.placeholders query).
    { rewrite Hsql, !placeholders_app, count_placeholder_quoted.
      replace (Spec.placeholders sql_head) with 0 by reflexivity.
      replace (Spec.placeholders Spec.match_prefix) with 0 by reflexivity.
      replace (Spec.placeholders sql_tail) with 0 by reflexivity.
      replace (Spec.placeholders (lit ":")) with 0 by reflexivity.
      replace (Spec.placeholders search_type) with 0; [lia|].
      destruct Hmode as [<-|[<-|[]]]; reflexivity. }
    rewrite Hpar, Hcount. cbn [length]. repeat split; auto.
Qed.

Lemma placeholders_and_parameters_witness :
  length (bound_params (lit "who?") (lit "content")) = 1
  /\ Spec.placeholders (executed_sql (lit "who?") (lit "content")) = 1
  /\ Spec.placeholders (executed_sql (lit "who") (lit "content")) = 0.
Proof.
  assert (Hin : In (lit "content") [lit "content"; lit "filename"])
    by (left; reflexivity).
  destruct (proj2 (placeholders_and_parameters (lit "who?")) _ Hin)
    as (H1 & H2 & _).
  destruct (proj2 (placeholders_and_parameters (lit "who")) _ Hin)
    as (_ & H3 & _).
  split; [exact H1|]. split; [exact H2 | exact H3].
Defined.

Lemma double_quotes_keeps (c : ascii) (q : str) :
  In c q -> In c (Spec.double_quotes q).
Proof.
  unfold Spec.double_quotes. intros Hin. apply in_flat_map.
  exists c. split; [assumption|].
  destruct (Ascii.eqb c dq) eqn:E.
  - apply Ascii.eqb_eq in E. subst. now left.
  - now left.
Qed.

Lemma double_quotes_injective (a b : str) :
  Spec.double_quotes a = Spec.double_quotes b -> a = b.
Proof.
  unfold Spec.double_quotes.
  revert b; induction a as [|x a IH]; intros [|y b]; cbn [flat_map].
  - reflexivity.
  - destruct (Ascii.eqb y dq); discriminate.
  - destruct (Ascii.eqb x dq); discriminate.
  - destruct (Ascii.eqb x dq) eqn:Ex, (Ascii.eqb y dq) eqn:Ey;
      cbn [app]; intros H.
    + apply Ascii.eqb_eq in Ex, Ey. subst.
      injection H as H. f_equal. now apply IH.
    + apply Ascii.eqb_eq in Ex. subst. injection H as H1 H2.
      subst y. rewrite Ascii.eqb_refl in Ey. discriminate.
    + apply Ascii.eqb_eq in Ey. subst. injection H as H1 H2.
      subst x. rewrite Ascii.eqb_refl in Ex. discriminate.
    + injection H as -> H. f_equal. now apply IH.
Qed.

Lemma app_same_length_inv (a b x y : str) :
  a ++ x = b ++ y -> length a = length b -> a = b.
Proof.
  revert b; induction a as [|c a IH]; intros [|d b]; cbn; intros H Hl;
    try discriminate; [reflexivity|].
  injection H as -> H. f_equal. apply (IH b H). lia.
Qed.

(** The match expression bound in one mode determines the quoted
    query. *)
Lemma bound_params_quoted (q1 q2 search_type : str) :
  bound_params q1 search_type = bound_params q2 search_type ->
  quoted_query q1 = quoted_query q2.
Proof.
  unfold bound_params.
  destruct (str_eqb search_type (lit "all")) eqn:Hmode.
  - apply str_eqb_eq in Hmode. subst. rewrite !prepare_all. cbn [snd].
    intros H. injection H as H.
    pose proof (f_equal (@length ascii) H) as Hl.
    rewrite !length_app in Hl. cbn [length] in Hl.
    apply app_same_length_inv in H; [assumption|lia].
  - rewrite !prepare_not_all by assumption. cbn [snd].
    intros H. injection H as H.
    apply app_inv_head in H. now injection H.
Qed.

(** X3: two different queries never give the same quoted query, and in
    one and the same search mode they never give the same match
    expression. *)
Theorem quoted_query_injective (q1 q2 search_type : str) :
  q1 <> q2 ->
  quoted_query q1 <> quoted_query q2
  /\ bound_params q1 search_type <> bound_params q2 search_type.
Proof.
  intros Hne.
  assert (Hq : quoted_query q1 <> quoted_query q2).
  { intros Heq. apply Hne. rewrite !quoted_query_eq in Heq.
    destruct (contains_char " " q1) eqn:E1, (contains_char " " q2) eqn:E2.
    - cbn [app] in Heq. injection Heq as Heq.
      apply app_inj_tail in Heq as [Heq _].
      now apply double_quotes_injective.
    - exfalso. apply contains_char_false in E2. apply E2. rewrite <- Heq.
      apply in_or_app. right. apply in_or_app. left.
      apply double_quotes_keeps. now apply contains_char_In.
    - exfalso. apply contains_char_false in E1. apply E1. rewrite Heq.
      apply in_or_app. right. apply in_or_app. left.
      apply double_quotes_keeps. now apply contains_char_In.
    - assumption. }
  split; [exact Hq|].
  intros H. apply Hq. now apply (bound_params_quoted q1 q2 search_type).
Qed.

Lemma quoted_query_injective_witness :
  quoted_query ([dq] ++ lit "a b" ++ [dq]) <> quoted_query (lit "a b")
  /\ bound_params ([dq] ++ lit "a b" ++ [dq]) (lit "all")
     <> bound_params (lit "a b") (lit "all").
Proof.
  apply quoted_query_injective. discriminate.
Defined.

(** Across modes the match expression does not determine the query. *)
Example same_expression_in_two_modes :
  bound_params (lit " OR filename:") (lit "content")
  = bound_params [dq] (lit "all").
Proof. reflexivity. Qed.

End StatementFacts.

Section SnippetFacts.

Import QueryServer.

Variable ci_eqb : ascii -> ascii -> bool.

Lemma finditer_head_sound (q s : str) (b e : nat) (rest : list (nat * nat)) :
  Re.finditer ci_eqb q s = (b, e) :: rest ->
  b <= length s /\ e = b + length q /\ Spec.occurs_at ci_eqb q s b.
Proof.
  intros Hm.
  assert (Hin : In (b, e) (Re.finditer_from ci_eqb q 0 0 s))
    by (unfold Re.finditer in Hm; rewrite Hm; now left).
  apply finditer_from_sound in Hin as (p & -> & _ & Hle & Hmatch & ->).
  conjs; [assumption|reflexivity|]. apply occurs_at_iff. auto.
Qed.

Lemma substring_length {A : Type} (s : list A) (a b : Z) :
  length (Spec.substring s a b) <= Z.to_nat (b - a).
Proof. unfold Spec.substring. rewrite length_firstn. lia. Qed.

(** X4: for a snippet length that is not negative, the snippet is at most
    [2 * snippet_length + len(query) + 6] characters long: the window and
    the two ellipses. *)
Theorem snippet_length_bound (query full_content : str) (L : Z) :
  (0 <= L)%Z ->
  (Z.of_nat (length (make_snippet ci_eqb query full_content L))
   <= 2 * L + Z.of_nat (length query) + 6)%Z.
Proof.
  intros HL. unfold make_snippet.
  destruct (Re.finditer ci_eqb query full_content) as [|[b e] rest] eqn:Hm.
  - rewrite slice_prefix by lia. rewrite length_app.
    unfold Spec.first_chars. rewrite length_firstn.
    destruct (_ >? _)%Z; change (length ellipsis) with 3; cbn [length]; lia.
  - apply finditer_head_sound in Hm as (Hb & -> & _).
    set (len := Z.of_nat (length full_content)).
    set (start := Z.max 0 (Z.of_nat b - L)).
    set (end_ := Z.min len (Z.of_nat (b + length query) + L)).
    rewrite slice_window by (unfold start, end_; fold len; lia).
    pose proof (substring_length full_content start end_) as Hs.
    assert (Hw : (Z.of_nat (Z.to_nat (end_ - start))
                  <= 2 * L + Z.of_nat (length query))%Z)
      by (unfold start, end_; lia).
    destruct (start >? 0)%Z, (end_ <? len)%Z;
      rewrite ?length_app; change (length ellipsis) with 3; lia.
Qed.

(** The snippet around the first occurrence, from the scan. *)
Lemma make_snippet_window (query full_content : str) (L : Z) (p : nat) :
  Spec.first_occurrence ci_eqb query full_content p ->
  (0 <= Z.of_nat (p + length query) + L)%Z ->
  make_snippet ci_eqb query full_content L
  = Spec.window_snippet full_content p (length query) L.
Proof.
  intros Hp HL. destruct (finditer_head _ _ _ _ Hp) as [rest Hm].
  unfold make_snippet, Spec.window_snippet. rewrite Hm.
  set (len := Z.of_nat (length full_content)).
  set (start := Z.max 0 (Z.of_nat p - L)).
  set (end_ := Z.min len (Z.of_nat (p + length query) + L)).
  rewrite Z.gtb_ltb.
  rewrite slice_window by (unfold start, end_; fold len; lia).
  destruct (0 <? start)%Z, (end_ <? len)%Z; cbn [app];
    rewrite <- ?app_assoc, ?app_nil_r; reflexivity.
Qed.

Lemma occurs_at_inside (q s a b : str) (p : nat) :
  Spec.occurs_at ci_eqb q s p ->
  Spec.occurs_at ci_eqb q (a ++ s ++ b) (length a + p).
Proof.
  intros (pre & mid & post & -> & <- & Hf).
  exists (a ++ pre), mid, (post ++ b).
  conjs; [|now rewrite length_app|assumption].
  now rewrite <- !app_assoc.
Qed.

(** A window that reaches from at or before the match to at or after its
    end holds the match. *)
Lemma substring_holds_match (pre mid post : str) (a b : Z) :
  (0 <= a <= Z.of_nat (length pre))%Z ->
  (Z.of_nat (length pre + length mid) <= b)%Z ->
  exists pre' post',
    Spec.substring (pre ++ mid ++ post) a b = pre' ++ mid ++ post'.
Proof.
  intros Ha Hb. unfold Spec.substring.
  exists (skipn (Z.to_nat a) pre).
  exists (firstn (Z.to_nat (b - a) - (length pre - Z.to_nat a) - length mid)
            post).
  rewrite skipn_app.
  replace (Z.to_nat a - length pre) with 0 by lia. cbn [skipn].
  rewrite firstn_app, length_skipn.
  rewrite (firstn_all2 (n := Z.to_nat (b - a)))
    by (rewrite length_skipn; lia).
  f_equal. rewrite firstn_app. f_equal. apply firstn_all2. lia.
Qed.

(** X5: when the content contains the query and the snippet length is not
    negative, the snippet contains the query, so the highlighting pass
    wraps at least one span. *)
Theorem snippet_holds_a_match (query full_content : str) (L : Z) :
  Spec.contains ci_eqb query full_content ->
  (0 <= L)%Z ->
  Spec.contains ci_eqb query (make_snippet ci_eqb query full_content L)
  /\ Re.finditer ci_eqb query (make_snippet ci_eqb query full_content L)
     <> [].
Proof.
  intros Hc HL.
  assert (Hin : Spec.contains ci_eqb query
                  (make_snippet ci_eqb query full_content L)).
  { destruct (contains_first_occurrence _ _ _ Hc) as [p Hp].
    rewrite (make_snippet_window _ _ _ _ Hp) by lia.
    destruct Hp as [(pre & mid & post & -> & <- & Hf) _].
    pose proof (Forall2_length Hf) as Hlen.
    unfold Spec.window_snippet.
    set (len := Z.of_nat (length (pre ++ mid ++ post))).
    set (start := Z.max 0 (Z.of_nat (length pre) - L)).
    set (end_ := Z.min len (Z.of_nat (length pre + length query) + L)).
    destruct (substring_holds_match pre mid post start end_)
      as (pre' & post' & ->).
    - unfold start. lia.
    - unfold end_, len. rewrite !length_app. lia.
    - eexists. apply occurs_at_inside.
      exists pre', mid, post'. conjs; [reflexivity|reflexivity|assumption]. }
  split; [assumption|]. intros Hnil. now apply finditer_nil in Hnil.
Qed.

(** X6: with a snippet length that is at least the length of the content, the
    snippet is the whole content, without an ellipsis, whether the query
    occurs in it or not. *)
Theorem long_snippet_is_whole_content (query full_content : str) (L : Z) :
  (Z.of_nat (length full_content) <= L)%Z ->
  make_snippet ci_eqb query full_content L = full_content.
Proof.
  intros HL. unfold make_snippet.
  destruct (Re.finditer ci_eqb query full_content) as [|[b e] rest] eqn:Hm.
  - rewrite slice_prefix by lia. unfold Spec.first_chars.
    rewrite firstn_all2 by lia.
    destruct (Z.gtb_spec (Z.of_nat (length full_content)) (L * 2));
      [lia|apply app_nil_r].
  - apply finditer_head_sound in Hm as (Hb & -> & _).
    rewrite (Z.max_l 0) by lia.
    rewrite (Z.min_l (Z.of_nat (length full_content))) by lia.
    rewrite slice_window by lia. unfold Spec.substring.
    cbn [Z.gtb Z.compare Z.to_nat skipn]. rewrite Z.ltb_irrefl.
    rewrite Z.sub_0_r, Nat2Z.id. apply firstn_all.
Qed.

Lemma expand_length (before after s : str) (ms : list (nat * nat)) :
  forall last,
    length (Re.expand before after s last ms)
    = length (Re.expand [] [] s last ms)
      + length ms * (length before + length after).
Proof.
  induction ms as [|[b e] ms IH]; intros last; cbn [Re.expand length].
  - lia.
  - rewrite !length_app, (IH e). cbn [length]. lia.
Qed.

(** X7: the highlighting pass adds the 31 characters of the markup for every
    wrapped span and nothing else; it leaves the snippet as it is exactly
    when the query does not occur in it. *)
Theorem highlight_adds_markup_only (query snippet_text : str) :
  length (highlight ci_eqb query snippet_text)
  = length snippet_text
    + 31 * length (Re.finditer ci_eqb query snippet_text)
  /\ (highlight ci_eqb query snippet_text = snippet_text
      <-> ~ Spec.contains ci_eqb query snippet_text).
Proof.
  assert (Hlen : length (highlight ci_eqb query snippet_text)
                 = length snippet_text
                   + 31 * length (Re.finditer ci_eqb query snippet_text)).
  { unfold highlight, Re.sub. rewrite expand_length.
    rewrite expand_plain
      by apply (finditer_from_in_order ci_eqb query snippet_text 0 0).
    cbn [skipn].
    change (length highlight_open + length highlight_close) with 31. lia. }
  split; [exact Hlen|]. rewrite finditer_nil. split.
  - intros Heq. rewrite Heq in Hlen.
    destruct (Re.finditer ci_eqb query snippet_text); [reflexivity|].
    cbn [length] in Hlen. lia.
  - intros Hnil. unfold highlight, Re.sub. rewrite Hnil. reflexivity.
Qed.

End SnippetFacts.

Section SnippetFactsExamples.

Import QueryServer.

Lemma snippet_length_bound_witness :
  (Z.of_nat (length (make_snippet Re.ascii_ci_eqb (lit "QUICK")
                       (lit "the quick brown fox") 3))
   <= 2 * 3 + Z.of_nat (length (lit "QUICK")) + 6)%Z.
Proof.
  apply (snippet_length_bound Re.ascii_ci_eqb (lit "QUICK")
           (lit "the quick brown fox") 3).
  lia.
Defined.

Lemma snippet_holds_a_match_witness :
  Re.finditer Re.ascii_ci_eqb (lit "fox")
    (make_snippet Re.ascii_ci_eqb (lit "fox") (lit "the quick brown fox") 0)
  <> [].
Proof.
  apply (snippet_holds_a_match Re.ascii_ci_eqb (lit "fox")
           (lit "the quick brown fox") 0); [|lia].
  exists 16, (lit "the quick brown "), (lit "fox"), [].
  split; [reflexivity|]. split; [reflexivity|]. repeat constructor.
Defined.

Lemma long_snippet_is_whole_content_witness :
  make_snippet Re.ascii_ci_eqb (lit "quick") (lit "the quick brown fox") 19
  = lit "the quick brown fox".
Proof.
  apply (long_snippet_is_whole_content Re.ascii_ci_eqb). simpl. lia.
Defined.

Lemma highlight_adds_markup_only_witness :
  QueryServer.highlight Re.ascii_ci_eqb (lit "cat") (lit "a dog") = lit "a dog".
Proof.
  apply (proj2 (highlight_adds_markup_only Re.ascii_ci_eqb (lit "cat")
                  (lit "a dog"))).
  apply finditer_nil. reflexivity.
Defined.

End SnippetFactsExamples.

Section HandlerFacts.

Import QueryServer.

Variable ci_eqb : ascii -> ascii -> bool.
Variable int_of_str : str -> option Z.

(** The outcomes of [search] on a body that is an object. *)
Lemma search_on_object (db_client : option datastore) (data : request) :
  let query := get (query_field data) (JStr []) in
  let search_type := get (search_type_field data) (JStr (lit "content")) in
  let converted :=
    py_int int_of_str (get (snippet_length_field data) (JInt 1000)) in
  (forall status b,
     search ci_eqb int_of_str db_client data = Respond status b ->
     status = 200 \/ status = 400 \/ status = 500)
  /\ (forall e,
        search ci_eqb int_of_str db_client data = Escapes e
        <-> db_client <> None /\ converted = inl e)
  /\ (forall b,
        search ci_eqb int_of_str db_client data = Respond 200 b
        <-> db_client <> None
            /\ truthy query = true
            /\ exists L,
                 converted = inr L
                 /\ b = SearchBody query
                          (call_search_database ci_eqb db_client query L
                             search_type)
                          (length (call_search_database ci_eqb db_client
                                     query L search_type))
                          search_type).
Proof.
  intros query search_type converted. unfold search.
  fold query. fold converted. fold search_type.
  destruct db_client as [db|].
  - destruct converted as [e|L] eqn:Hconv.
    + conjs.
      * intros status b H. discriminate.
      * intros e'. split.
        -- intros H. injection H as <-. split; [discriminate|reflexivity].
        -- intros [_ H]. congruence.
      * intros b. split; [discriminate|].
        intros (_ & _ & L & H & _). discriminate.
    + destruct (truthy query) eqn:Ht; cbn [negb]; conjs.
      * intros status b H. injection H as <- _. now left.
      * intros e. split; [discriminate|]. intros [_ H]. discriminate.
      * intros b. split.
        -- intros H. injection H as <-.
           conjs; [discriminate|reflexivity|]. exists L. auto.
        -- intros (_ & _ & L' & HL' & ->). injection HL' as <-. reflexivity.
      * intros status b H. injection H as <- _. right. now left.
      * intros e. split; [discriminate|]. intros [_ H]. discriminate.
      * intros b. split; [discriminate|].
        intros (_ & H & _). discriminate.
  - conjs.
    + intros status b H. injection H as <- _. right. now right.
    + intros e. split; [discriminate|]. intros [H _]. congruence.
    + intros b. split; [discriminate|]. intros [H _]. congruence.
Qed.

(** X8: the outcomes of the [/search] handler, from the body as received.
    A response has status 200, 400 or 500.  An exception leaves the
    handler exactly when there is a connection and the body is not read
    as JSON, or is not an object, or is an object whose snippet length
    does not convert.  The status is 200 exactly when there is a
    connection and the body is an object whose snippet length converts
    and whose query is truthy; the response then holds the results of
    [search_database] with their number as count. *)
Theorem search_outcomes (db_client : option datastore) (b : Wire.body) :
  let outcome_ := Wire.search_request ci_eqb int_of_str db_client b in
  let converted data :=
    py_int int_of_str (get (snippet_length_field data) (JInt 1000)) in
  (forall status r,
     outcome_ = Wire.Handled (Respond status r) ->
     status = 200 \/ status = 400 \/ status = 500)
  /\ (Wire.raises outcome_
      <-> db_client <> None
          /\ (b = Wire.Unreadable \/ b = Wire.NotAnObject
              \/ exists data e, b = Wire.Object data
                                /\ converted data = inl e))
  /\ (forall r,
        outcome_ = Wire.Handled (Respond 200 r)
        <-> db_client <> None
            /\ exists data L,
                 b = Wire.Object data
                 /\ truthy (get (query_field data) (JStr [])) = true
                 /\ converted data = inr L
                 /\ let query := get (query_field data) (JStr []) in
                    let search_type :=
                      get (search_type_field data) (JStr (lit "content")) in
                    let results :=
                      call_search_database ci_eqb db_client query L
                        search_type in
                    r = SearchBody query results (length results)
                          search_type).
Proof.
  intros outcome_ converted. subst outcome_. unfold Wire.search_request.
  destruct db_client as [db|].
  - destruct b as [| |data].
    + conjs.
      * intros status r H. discriminate.
      * split; [intros _; split; [discriminate|now left]|].
        intros _. now left.
      * intros r. split; [discriminate|].
        intros (_ & data & L & H & _). discriminate.
    + conjs.
      * intros status r H. discriminate.
      * split; [intros _; split; [discriminate|right; now left]|].
        intros _. right. now left.
      * intros r. split; [discriminate|].
        intros (_ & data & L & H & _). discriminate.
    + destruct (search_on_object (Some db) data) as (Hst & Hesc & H200).
      conjs.
      * intros status r H. injection H as H. exact (Hst status r H).
      * split.
        -- intros [H|[H|[e H]]]; try discriminate.
           injection H as H. apply Hesc in H as [_ H].
           split; [discriminate|]. right. right. now exists data, e.
        -- intros (_ & [H|[H|(data' & e & H & Hc)]]); try discriminate.
           injection H as <-. right. right. exists e. f_equal.
           apply Hesc. split; [discriminate|exact Hc].
      * intros r. split.
        -- intros H. injection H as H.
           apply H200 in H as (_ & Ht & L & HL & ->).
           split; [discriminate|]. exists data, L. auto.
        -- intros (_ & data' & L & H & Ht & HL & Hr). injection H as <-.
           f_equal. apply H200. split; [discriminate|].
           split; [exact Ht|]. exists L. auto.
  - conjs.
    + intros status r H. injection H as <- _. right. now right.
    + split.
      * intros [H|[H|[e H]]]; discriminate.
      * intros [H _]. congruence.
    + intros r. split; [discriminate|]. intros [H _]. congruence.
Qed.

End HandlerFacts.

Section HandlerExamples.

Import QueryServer Sample.

Lemma search_outcomes_witness :
  Wire.raises
    (Wire.search_request Re.ascii_ci_eqb simple_int_of_str
       (Some db_two_rows) Wire.NotAnObject)
  /\ exists r,
       Wire.search_request Re.ascii_ci_eqb simple_int_of_str
         (Some db_two_rows) (Wire.Object lone_quote_request)
       = Wire.Handled (Respond 200 r).
Proof.
  split.
  - apply (proj1 (proj2 (search_outcomes Re.ascii_ci_eqb simple_int_of_str
                           (Some db_two_rows) Wire.NotAnObject))).
    split; [discriminate|]. right. now left.
  - pose proof (search_outcomes Re.ascii_ci_eqb simple_int_of_str
                  (Some db_two_rows) (Wire.Object lone_quote_request)) as H.
    cbv zeta in H. destruct H as (_ & _ & H).
    eexists. apply H. split; [discriminate|].
    exists lone_quote_request, 1000%Z.
    split; [reflexivity|]. split; [reflexivity|].
    split; reflexivity.
Defined.

(** A body that is an array, with a connection: the exception leaves the
    handler before the query is looked at. *)
Example array_body_escapes :
  Wire.search_request Re.ascii_ci_eqb simple_int_of_str (Some db_two_rows)
    Wire.NotAnObject = Wire.AttributeErrorEscapes
  /\ Wire.search_request Re.ascii_ci_eqb simple_int_of_str None
       Wire.NotAnObject
     = Wire.Handled
         (Respond 500 (ErrorBody (lit "Database connection not available"))).
Proof. split; reflexivity. Qed.

End HandlerExamples.

(** * Further properties of the indexer *)

Section TableFacts.

Import Indexer.

Lemma id_below_next (t : table) (d : document) :
  In d t -> (id d < next_id t)%Z.
Proof.
  unfold next_id. induction t as [|x t IH]; intros Hin; [destruct Hin|].
  cbn [map fold_right]. destruct Hin as [->|Hin]; [lia|].
  apply IH in Hin. lia.
Qed.

Lemma index_one_appends (t : table) (f : file) :
  exists added,
    index_one t f = t ++ added
    /\ length added <= 1
    /\ Forall (fun d =>
                 filepath d = f_path f
                 /\ filename d = basename (f_path f)
                 /\ f_read f = Some (content d)
                 /\ image_url d = f_image f
                 /\ id d = next_id t
                 /\ ~ In (filepath d) (Spec.paths t)) added.
Proof.
  unfold index_one.
  destruct (f_read f) as [text|] eqn:Hr;
    [|exists []; rewrite app_nil_r; auto].
  destruct (f_insert_raises f);
    [exists []; rewrite app_nil_r; auto|].
  unfold insert_or_ignore.
  destruct (existsb (has_path (f_path f)) t) eqn:E;
    [exists []; rewrite app_nil_r; auto|].
  eexists. split; [reflexivity|]. split; [simpl; lia|].
  constructor; [|constructor]. cbn. conjs; try reflexivity.
  intros Hin. apply has_path_exists in Hin. congruence.
Qed.

(** X9: a run only appends rows: the table before the run is a prefix of the
    table after it; at most one row is added per file; every added row
    has the path of a file of the corpus that was not in the table, its
    base name as file name, the text read from it and its image URL. *)
Theorem run_only_appends (files : list file) (t : table) :
  exists added,
    index_text_files files t = t ++ added
    /\ length added <= length files
    /\ Forall (fun d =>
                 ~ In (filepath d) (map filepath t)
                 /\ exists f,
                      In f files
                      /\ filepath d = f_path f
                      /\ filename d = basename (f_path f)
                      /\ f_read f = Some (content d)
                      /\ image_url d = f_image f) added.
Proof.
  revert t. induction files as [|f files IH]; intros t.
  - exists []. rewrite app_nil_r. auto.
  - cbn [index_text_files fold_left].
    destruct (index_one_appends t f) as (a1 & H1 & L1 & F1).
    destruct (IH (index_one t f)) as (a2 & H2 & L2 & F2).
    exists (a1 ++ a2). conjs.
    + unfold index_text_files in H2. rewrite H2, H1. now rewrite app_assoc.
    + rewrite length_app. simpl. lia.
    + apply Forall_app. split.
      * eapply Forall_impl; [|exact F1].
        intros d (Hp & Hn & Hr & Hu & _ & Hnot).
        split; [exact Hnot|]. exists f. conjs; auto. now left.
      * eapply Forall_impl; [|exact F2].
        intros d (Hnot & g & Hg & Hrest). split.
        -- intros Hin. apply Hnot. rewrite H1, map_app.
           apply in_or_app. now left.
        -- exists g. split; [now right|exact Hrest].
Qed.


(** The row identifiers stay unique: a new row gets an identifier above
    all those in the table. *)
Lemma ids_stay_unique (files : list file) (t : table) :
  NoDup (map id t) -> NoDup (map id (index_text_files files t)).
Proof.
  revert t. induction files as [|f files IH]; intros t Hnd; [assumption|].
  cbn [index_text_files fold_left]. apply IH.
  destruct (index_one_appends t f) as (added & -> & Hlen & Hall).
  destruct added as [|d [|d' r]]; [now rewrite app_nil_r| |simpl in Hlen; lia].
  rewrite map_app. cbn [map].
  apply NoDup_app; [assumption|repeat constructor; auto|].
  intros x Hx [<-|[]].
  apply in_map_iff in Hx as (d0 & Hid & Hd0).
  apply id_below_next in Hd0.
  inversion Hall as [|? ? (_ & _ & _ & _ & Hnext & _) _]; subst. lia.
Qed.

End TableFacts.

Section TableExamples.

Import Indexer Sample.


End TableExamples.

(** * The document view and the start of the server *)

Section ViewFacts.

Import Indexer ViewFile.

Variable render : str -> str -> option str -> render_result.

Lemma run_extends (files : list file) (t : table) :
  exists added, index_text_files files t = t ++ added.
Proof.
  revert t. induction files as [|f files IH]; intros t.
  - exists []. now rewrite app_nil_r.
  - cbn [index_text_files fold_left].
    destruct (index_one_appends t f) as (a1 & H1 & _).
    destruct (IH (index_one t f)) as (a2 & H2).
    exists (a1 ++ a2). unfold index_text_files in H2.
    now rewrite H2, H1, app_assoc.
Qed.

Lemma select_content_app (t1 t2 : table) (p : str) :
  select_content (t1 ++ t2) p = select_content t1 p ++ select_content t2 p.
Proof. unfold select_content. now rewrite filter_app, map_app. Qed.

Lemma select_content_rows (t : table) (p : str) :
  (select_content t p = [] <-> ~ In p (map filepath t))
  /\ (forall c u rest,
        select_content t p = (c, u) :: rest ->
        exists d, In d t /\ filepath d = p /\ content d = c
                  /\ image_url d = u).
Proof.
  unfold select_content. split.
  - split.
    + intros Hnil Hin. apply in_map_iff in Hin as (d & Hp & Hd).
      assert (Hf : In d (filter (has_path p) t)).
      { apply filter_In. split; [assumption|].
        unfold has_path. now apply str_eqb_eq. }
      apply (in_map (fun d => (content d, image_url d))) in Hf.
      rewrite Hnil in Hf. destruct Hf.
    + intros Hnot. destruct (filter (has_path p) t) as [|d r] eqn:F;
        [reflexivity|].
      exfalso. apply Hnot.
      assert (Hd : In d (filter (has_path p) t)) by (rewrite F; now left).
      apply filter_In in Hd as [Hd Hp]. unfold has_path in Hp.
      apply str_eqb_eq in Hp. rewrite <- Hp. now apply in_map.
  - intros c u rest Hsel.
    destruct (filter (has_path p) t) as [|d r] eqn:F; [discriminate|].
    cbn [map] in Hsel. injection Hsel as <- <- _.
    assert (Hd : In d (filter (has_path p) t)) by (rewrite F; now left).
    apply filter_In in Hd as [Hd Hp]. unfold has_path in Hp.
    apply str_eqb_eq in Hp. exists d. auto.
Qed.

(** X11: on a datastore that holds the table [t], a request for a path that
    is not empty is answered 404 exactly when the path has no row; a page
    answered with status 200 is the template rendered with the content
    and image URL of a row of that very path. *)
Theorem view_file_on_table (t : table) (p : str) :
  p <> [] ->
  (fst (view_file render (Some (table_store t)) (Some p)) = 404
   <-> ~ In p (map filepath t))
  /\ (forall html,
        view_file render (Some (table_store t)) (Some p) = (200, html) ->
        exists d,
          In d t /\ filepath d = p
          /\ render p (content d) (image_url d) = Page html).
Proof.
  intros Hp. destruct p as [|x p]; [congruence|].
  unfold view_file, table_store.
  destruct (select_content_rows t (x :: p)) as [Hnil Hrow].
  destruct (select_content t (x :: p)) as [|[c u] rest] eqn:Hsel.
  - split; [|discriminate]. cbn [fst]. split; [intros _|reflexivity].
    now apply Hnil.
  - destruct (Hrow c u rest eq_refl) as (d & Hd & Hpath & <- & <-).
    assert (Hin : In (x :: p) (map filepath t))
      by (rewrite <- Hpath; now apply in_map).
    destruct (render (x :: p) (content d) (image_url d)) as [html|msg] eqn:R;
      cbn [fst]; split.
    + split; [discriminate|]. intros Hnot. contradiction.
    + intros html' H. injection H as <-. exists d. auto.
    + split; [discriminate|]. intros Hnot. contradiction.
    + intros html' H. discriminate.
Qed.

(** X12: what the view shows for a path that has a row is not changed by any
    later run of the indexer. *)
Theorem view_file_stable_under_runs (files : list file) (t : table)
  (p : str) :
  In p (map filepath t) ->
  view_file render (Some (table_store (index_text_files files t))) (Some p)
  = view_file render (Some (table_store t)) (Some p).
Proof.
  intros Hin. destruct (run_extends files t) as [added ->].
  unfold view_file, table_store. destruct p as [|x p]; [reflexivity|].
  rewrite select_content_app.
  destruct (select_content t (x :: p)) as [|[c u] rest] eqn:Hsel;
    [|reflexivity].
  exfalso. now apply (proj1 (select_content_rows t (x :: p))) in Hsel.
Qed.

(** X13: insert, then look up: once a file with a new path was read and
    inserted, the view of that path renders the text read from the file
    and its image URL, also after any further files were indexed. *)
Theorem indexed_file_is_viewable (t : table) (f : file) (text : str)
  (more : list file) :
  f_path f <> [] ->
  ~ In (f_path f) (map filepath t) ->
  f_read f = Some text ->
  f_insert_raises f = false ->
  view_file render
    (Some (table_store (index_text_files more (index_one t f))))
    (Some (f_path f))
  = match render (f_path f) text (f_image f) with
    | Page html => (200, html)
    | RenderRaises msg => (500, lit "Error reading file: " ++ msg)
    end.
Proof.
  intros Hne Hnot Hr Hi.
  destruct (run_extends more (index_one t f)) as [added ->].
  unfold index_one, insert_or_ignore. rewrite Hr, Hi.
  assert (E : existsb (has_path (f_path f)) t = false).
  { destruct (existsb (has_path (f_path f)) t) eqn:E; [|reflexivity].
    apply has_path_exists in E. contradiction. }
  rewrite E. unfold view_file, table_store.
  destruct (f_path f) as [|x p] eqn:Hpath; [congruence|].
  rewrite !select_content_app.
  rewrite (proj2 (proj1 (select_content_rows t (x :: p))) Hnot).
  unfold select_content at 1. cbn [filter]. unfold has_path at 1.
  cbn [filepath]. rewrite str_eqb_refl. reflexivity.
Qed.

End ViewFacts.

Section ViewExamples.

Import Indexer ViewFile Sample Sample2.

Lemma view_file_on_table_witness :
  fst (view_file plain_render (Some (table_store [fox_document]))
         (Some (lit "/TEXT/001/cat.txt"))) = 404.
Proof.
  apply (proj1 (view_file_on_table plain_render [fox_document]
                  (lit "/TEXT/001/cat.txt") ltac:(discriminate))).
  intros [H|[]]. discriminate.
Defined.

Lemma view_file_stable_under_runs_witness :
  view_file plain_render
    (Some (table_store
             (index_text_files [fox_file_again; dog_file] [fox_document])))
    (Some (lit "/TEXT/001/fox.txt"))
  = view_file plain_render (Some (table_store [fox_document]))
      (Some (lit "/TEXT/001/fox.txt")).
Proof.
  apply view_file_stable_under_runs. left. reflexivity.
Defined.

Lemma indexed_file_is_viewable_witness :
  view_file plain_render
    (Some (table_store
             (index_text_files [unreadable_file]
                (index_one [fox_document] dog_file))))
    (Some (lit "/TEXT/001/dog.txt"))
  = (200, lit "/TEXT/001/dog.txt: the lazy dog").
Proof.
  apply (indexed_file_is_viewable plain_render [fox_document] dog_file
           (lit "the lazy dog") [unreadable_file]).
  - discriminate.
  - intros [H|[]]. discriminate.
  - reflexivity.
  - reflexivity.
Defined.

(** Without the template file the view of an existing path is answered
    500 with the message of the exception. *)
Example view_without_template :
  view_file no_template (Some (table_store [fox_document]))
    (Some (lit "/TEXT/001/fox.txt"))
  = (500, lit "Error reading file: view_file.html").
Proof. reflexivity. Qed.

End ViewExamples.

Section StartupFacts.

Import QueryServer Startup.

(** X14: run as a script, the server either exits with status 1 or serves
    with a client: both variables are set and not empty and the client
    was created.  A server that serves then never returns a response
    with status 500 from the search handler. *)
Theorem script_serves_only_with_client
  (TURSO_DB_URL TURSO_AUTH_TOKEN : option str)
  (create_client : str -> str -> option datastore) :
  (run_script TURSO_DB_URL TURSO_AUTH_TOKEN create_client = Exits 1
   \/ exists url token db,
        TURSO_DB_URL = Some url /\ url <> []
        /\ TURSO_AUTH_TOKEN = Some token /\ token <> []
        /\ create_client url token = Some db
        /\ run_script TURSO_DB_URL TURSO_AUTH_TOKEN create_client
           = Loaded (Some db))
  /\ (forall db_client ci_eqb int_of_str data b,
        run_script TURSO_DB_URL TURSO_AUTH_TOKEN create_client
        = Loaded db_client ->
        search ci_eqb int_of_str db_client data <> Respond 500 b).
Proof.
  assert (H : run_script TURSO_DB_URL TURSO_AUTH_TOKEN create_client
              = Exits 1
              \/ exists url token db,
                   TURSO_DB_URL = Some url /\ url <> []
                   /\ TURSO_AUTH_TOKEN = Some token /\ token <> []
                   /\ create_client url token = Some db
                   /\ run_script TURSO_DB_URL TURSO_AUTH_TOKEN create_client
                      = Loaded (Some db)).
  { unfold run_script, load_module.
    destruct TURSO_DB_URL as [[|x url]|], TURSO_AUTH_TOKEN as [[|y token]|];
      try (now left).
    cbn [unset orb].
    destruct (create_client (x :: url) (y :: token)) as [db|] eqn:C;
      [|now left].
    right. exists (x :: url), (y :: token), db.
    conjs; try reflexivity; try discriminate. exact C. }
  split; [exact H|].
  intros db_client ci_eqb int_of_str data b Hrun.
  destruct H as [H|(url & token & db & _ & _ & _ & _ & _ & H)];
    rewrite H in Hrun; [discriminate|].
  injection Hrun as <-. unfold search.
  destruct (py_int _ _); [discriminate|].
  destruct (negb _); discriminate.
Qed.

End StartupFacts.

Section StartupExamples.

Import QueryServer Startup Sample.

Lemma script_serves_only_with_client_witness :
  search Re.ascii_ci_eqb simple_int_of_str (Some db_no_rows)
    empty_query_request
  <> Respond 500 (ErrorBody (lit "Database connection not available")).
Proof.
  apply (proj2 (script_serves_only_with_client (Some (lit "libsql://db"))
                  (Some (lit "token")) (fun _ _ => Some db_no_rows))).
  reflexivity.
Defined.

Example missing_token_exits :
  run_script (Some (lit "libsql://db")) (Some [])
    (fun _ _ => Some db_no_rows) = Exits 1
  /\ load_module (Some (lit "libsql://db")) (Some (lit "token"))
       (fun _ _ => None) = Loaded None.
Proof. split; reflexivity. Qed.

End StartupExamples.

(** * The image lookup and the uploads of a run *)

Section PathFacts.

Import OsPath.

Lemma rfind_from_absent (c : ascii) (s : str) :
  forall i last, ~ In c s -> rfind_from c i last s = last.
Proof.
  induction s as [|x s IH]; intros i last Hnot; [reflexivity|].
  cbn [rfind_from]. destruct (Ascii.eqb x c) eqn:E.
  - apply Ascii.eqb_eq in E. subst. exfalso. apply Hnot. now left.
  - apply IH. intros H. apply Hnot. now right.
Qed.

Lemma rfind_from_last (c : ascii) (a b : str) :
  forall i last,
    ~ In c b -> rfind_from c i last (a ++ c :: b) = Some (i + length a).
Proof.
  induction a as [|x a IH]; intros i last Hnot.
  - cbn [app rfind_from length]. rewrite Ascii.eqb_refl.
    rewrite rfind_from_absent by assumption. f_equal. lia.
  - cbn [app rfind_from length]. rewrite IH by assumption. f_equal. lia.
Qed.

Lemma basename_acc_plain (p : str) :
  forall acc, ~ In "/"%char p -> Indexer.basename_acc acc p = rev acc ++ p.
Proof.
  induction p as [|x p IH]; intros acc Hnot; cbn [Indexer.basename_acc].
  - now rewrite app_nil_r.
  - destruct (Ascii.eqb x "/") eqn:E.
    + apply Ascii.eqb_eq in E. subst. exfalso. apply Hnot. now left.
    + rewrite IH by (intros H; apply Hnot; now right).
      cbn [rev]. now rewrite <- app_assoc.
Qed.

Lemma basename_of_file (dir name : str) :
  ~ In "/"%char name -> Indexer.basename (dir ++ lit "/" ++ name) = name.
Proof.
  intros Hnot. unfold Indexer.basename. generalize (@nil ascii).
  induction dir as [|x dir IH]; intros acc.
  - cbn. now apply (basename_acc_plain name []).
  - cbn [app Indexer.basename_acc]. destruct (Ascii.eqb x "/"); apply IH.
Qed.

Lemma basename_acc_no_slash (p : str) :
  forall acc, ~ In "/"%char acc -> ~ In "/"%char (Indexer.basename_acc acc p).
Proof.
  induction p as [|x p IH]; intros acc Hacc; cbn [Indexer.basename_acc].
  - now rewrite <- in_rev.
  - destruct (Ascii.eqb x "/") eqn:E.
    + apply IH. intros [].
    + apply IH. intros [H|H]; [|contradiction].
      subst. rewrite Ascii.eqb_refl in E. discriminate.
Qed.

Lemma splitext_root_incl (p : str) (x : ascii) :
  In x (splitext_root p) -> In x p.
Proof.
  unfold splitext_root. destruct (rfind "." p) as [dot|]; [|auto].
  destruct (_ && _); [|auto].
  intros H. rewrite <- (firstn_skipn dot p). apply in_or_app. now left.
Qed.

Lemma base_name_no_slash (p : str) :
  ~ In "/"%char (splitext_root (Indexer.basename p)).
Proof.
  intros H. apply splitext_root_incl in H.
  revert H. apply basename_acc_no_slash. intros [].
Qed.

(** The root of [stem.ext]. *)
Lemma splitext_root_stem (stem ext : str) :
  ~ In "/"%char (stem ++ "."%char :: ext) ->
  ~ In "."%char ext ->
  existsb (fun x => negb (Ascii.eqb x ".")) stem = true ->
  splitext_root (stem ++ "."%char :: ext) = stem.
Proof.
  intros Hslash Hdot Hstem. unfold splitext_root, rfind.
  rewrite rfind_from_last by assumption.
  rewrite rfind_from_absent by assumption. cbn [Nat.add Nat.leb andb].
  unfold Re.span. rewrite Nat.sub_0_r. cbn [skipn].
  rewrite firstn_app, firstn_all, Nat.sub_diag. cbn [firstn].
  rewrite app_nil_r, Hstem. reflexivity.
Qed.

End PathFacts.

Section ImageFacts.

Import Images ImageSpec.

Lemma subdir_here_sound (s d : str) :
  subdir_here s = Some d ->
  three_digits d /\ exists post, s = lit "/TEXT/" ++ d ++ lit "/" ++ post.
Proof.
  unfold subdir_here. destruct (starts_with (lit "/TEXT/") s) eqn:Hs;
    [|discriminate].
  apply starts_with_split in Hs. change (length (lit "/TEXT/")) with 6 in Hs.
  destruct (skipn 6 s) as [|d1 [|d2 [|d3 [|slash rest]]]]; try discriminate.
  destruct (is_digit d1) eqn:H1, (is_digit d2) eqn:H2, (is_digit d3) eqn:H3,
    (Ascii.eqb slash "/") eqn:H4; cbn [andb]; try discriminate.
  intros H. injection H as <-. apply Ascii.eqb_eq in H4. subst slash. split.
  - split; [reflexivity|]. cbn [forallb]. now rewrite H1, H2, H3.
  - exists rest. exact Hs.
Qed.

Lemma subdir_here_complete (d post : str) :
  three_digits d ->
  subdir_here (lit "/TEXT/" ++ d ++ lit "/" ++ post) = Some d.
Proof.
  intros [Hlen Hdig].
  destruct d as [|d1 [|d2 [|d3 [|? ?]]]]; try discriminate.
  cbn [forallb] in Hdig.
  apply andb_true_iff in Hdig as [H1 Hdig].
  apply andb_true_iff in Hdig as [H2 Hdig].
  apply andb_true_iff in Hdig as [H3 _].
  unfold subdir_here. cbn. now rewrite H1, H2, H3.
Qed.

Lemma find_subdir_sound (s d : str) :
  find_subdir s = Some d -> three_digits d /\ has_text_segment s d.
Proof.
  induction s as [|x s IH]; cbn [find_subdir].
  - destruct (subdir_here []) eqn:E; [|discriminate].
    intros H. injection H as <-. apply subdir_here_sound in E as [H3 [post E]].
    split; [assumption|]. now exists [], post.
  - destruct (subdir_here (x :: s)) eqn:E.
    + intros H. injection H as <-.
      apply subdir_here_sound in E as [H3 [post E]].
      split; [assumption|]. now exists [], post.
    + intros H. apply IH in H as [H3 (pre & post & ->)].
      split; [assumption|]. now exists (x :: pre), post.
Qed.

Lemma find_subdir_complete (s d : str) :
  three_digits d -> has_text_segment s d -> find_subdir s <> None.
Proof.
  intros H3 (pre & post & ->). induction pre as [|x pre IH].
  - cbn [app]. pose proof (subdir_here_complete d post H3) as E.
    destruct (lit "/TEXT/" ++ d ++ lit "/" ++ post) eqn:S;
      cbn [find_subdir]; rewrite E; discriminate.
  - cbn [app find_subdir].
    destruct (subdir_here _); [discriminate|exact IH].
Qed.

Lemma join2_plain (path b : str) :
  starts_with (lit "/") b = false ->
  path <> [] ->
  OsPath.ends_with_char "/" path = false ->
  OsPath.join2 path b = path ++ lit "/" ++ b.
Proof.
  intros Hb Hne Hend. unfold OsPath.join2. rewrite Hb, Hend.
  destruct path; [congruence|reflexivity].
Qed.

(** The image path of a candidate: directly under the sub-directory. *)
Lemma join_candidate (sub_dir base_name ext : str) :
  three_digits sub_dir ->
  ~ In "/"%char base_name ->
  In ext image_extensions ->
  OsPath.join IMAGE_BASE_DIRECTORY [sub_dir; base_name ++ ext]
  = candidate sub_dir base_name ext.
Proof.
  intros [Hlen Hdig] Hbase Hext.
  destruct sub_dir as [|d1 [|d2 [|d3 [|? ?]]]]; try discriminate.
  cbn [forallb] in Hdig.
  apply andb_true_iff in Hdig as [H1 Hdig].
  apply andb_true_iff in Hdig as [H2 Hdig].
  apply andb_true_iff in Hdig as [H3 _].
  assert (Hd1 : Ascii.eqb "/" d1 = false).
  { destruct (Ascii.eqb "/" d1) eqn:E; [|reflexivity].
    apply Ascii.eqb_eq in E. subst. discriminate. }
  assert (Hd3 : Ascii.eqb d3 "/" = false).
  { destruct (Ascii.eqb d3 "/") eqn:E; [|reflexivity].
    apply Ascii.eqb_eq in E. subst. discriminate. }
  assert (Hname : starts_with (lit "/") (base_name ++ ext) = false).
  { destruct base_name as [|b base].
    - cbn [app]. destruct Hext as [<-|[<-|[<-|[<-|[<-|[<-|[]]]]]]];
        reflexivity.
    - cbn [app]. change (lit "/") with ["/"%char]. cbn [starts_with].
      destruct (Ascii.eqb "/" b) eqn:E; [|reflexivity].
      apply Ascii.eqb_eq in E. subst. exfalso. apply Hbase. now left. }
  assert (Hsub : starts_with (lit "/") [d1; d2; d3] = false).
  { change (lit "/") with ["/"%char]. cbn [starts_with]. now rewrite Hd1. }
  assert (Hend : OsPath.ends_with_char "/"
                   (IMAGE_BASE_DIRECTORY ++ lit "/" ++ [d1; d2; d3]) = false).
  { unfold OsPath.ends_with_char. rewrite !rev_app_distr.
    cbn [rev app]. exact Hd3. }
  unfold OsPath.join. cbn [fold_left].
  rewrite (join2_plain IMAGE_BASE_DIRECTORY [d1; d2; d3]);
    [|assumption|discriminate|reflexivity].
  rewrite join2_plain; [|assumption| |assumption].
  - unfold candidate. now rewrite <- !app_assoc.
  - intros H. apply (f_equal (@length ascii)) in H.
    rewrite length_app in H. cbn in H. lia.
Qed.

End ImageFacts.

Section UploadFacts.

Import Images ImageSpec.

Variable e : env.

(** The loop over the extensions: nothing exists, or the first
    extension whose image exists decides. *)
Lemma probe_cases (sub_dir base_name : str) (exts : list str) :
  three_digits sub_dir ->
  ~ In "/"%char base_name ->
  (forall x, In x exts -> In x image_extensions) ->
  (probe e sub_dir base_name exts = (None, [])
   /\ forall x, In x exts ->
                e_exists e (candidate sub_dir base_name x) = false)
  \/ exists before ext after,
       exts = before ++ ext :: after
       /\ (forall x, In x before ->
                     e_exists e (candidate sub_dir base_name x) = false)
       /\ e_exists e (candidate sub_dir base_name ext) = true
       /\ probe e sub_dir base_name exts
          = (if e_upload_ok e (call_for e sub_dir base_name ext)
             then Some (url_for e sub_dir base_name ext) else None,
             [call_for e sub_dir base_name ext]).
Proof.
  intros H3 Hbase. induction exts as [|ext exts IH]; intros Hexts.
  - left. split; [reflexivity|]. intros x [].
  - cbn [probe].
    rewrite join_candidate by (auto; apply Hexts; now left).
    destruct (e_exists e (candidate sub_dir base_name ext)) eqn:Hex.
    + right. exists [], ext, exts. conjs; try reflexivity; try assumption.
      * intros x [].
      * fold (key_for sub_dir base_name ext).
        fold (call_for e sub_dir base_name ext).
        fold (url_for e sub_dir base_name ext).
        now destruct (e_upload_ok e (call_for e sub_dir base_name ext)).
    + destruct IH as [[Hp Hall]|(before & x & after & -> & Hb & Hx & Hp)].
      * intros x Hx. apply Hexts. now right.
      * left. split; [assumption|]. intros x [<-|Hx]; auto.
      * right. exists (ext :: before), x, after.
        conjs; try reflexivity; try assumption.
        intros y [<-|Hy]; auto.
Qed.

Lemma find_and_upload_image_cases (txt_path : str) :
  let base_name := OsPath.splitext_root (Indexer.basename txt_path) in
  (find_subdir txt_path = None
   /\ find_and_upload_image e txt_path = (None, []))
  \/ exists sub_dir,
       find_subdir txt_path = Some sub_dir
       /\ three_digits sub_dir
       /\ has_text_segment txt_path sub_dir
       /\ ((find_and_upload_image e txt_path = (None, [])
            /\ forall x, In x image_extensions ->
                 e_exists e (candidate sub_dir base_name x) = false)
           \/ exists before ext after,
                image_extensions = before ++ ext :: after
                /\ (forall x, In x before ->
                      e_exists e (candidate sub_dir base_name x) = false)
                /\ e_exists e (candidate sub_dir base_name ext) = true
                /\ find_and_upload_image e txt_path
                   = (if e_upload_ok e (call_for e sub_dir base_name ext)
                      then Some (url_for e sub_dir base_name ext) else None,
                      [call_for e sub_dir base_name ext])).
Proof.
  intros base_name. unfold find_and_upload_image. fold base_name.
  destruct (find_subdir txt_path) as [sub_dir|] eqn:Hsub; [|now left].
  right. exists sub_dir.
  destruct (find_subdir_sound _ _ Hsub) as [H3 Hseg].
  conjs; try assumption; try reflexivity.
  apply probe_cases; [assumption|apply base_name_no_slash|auto].
Qed.

(** X15: a path without a segment [/TEXT/ddd/] of three digits gets no image
    URL, and nothing is uploaded for it. *)
Theorem no_text_segment_no_image (txt_path : str) :
  (forall sub_dir, three_digits sub_dir ->
                   ~ has_text_segment txt_path sub_dir) ->
  find_and_upload_image e txt_path = (None, []).
Proof.
  intros Hno.
  destruct (find_and_upload_image_cases txt_path)
    as [[_ H]|(sub_dir & _ & H3 & Hseg & _)]; [exact H|].
  exfalso. exact (Hno sub_dir H3 Hseg).
Qed.

(** X16: a returned URL is the public base, the three digits of a
    segment [/TEXT/ddd/] of the path, the base name of the text file and
    one of the six extensions; the image exists directly in that
    sub-directory of the image root, was uploaded under that key, and no
    extension earlier in the list has an image. *)
Theorem returned_url_names_uploaded_image (txt_path url : str)
  (calls : list upload_call) :
  find_and_upload_image e txt_path = (Some url, calls) ->
  let base_name := OsPath.splitext_root (Indexer.basename txt_path) in
  exists sub_dir before ext after,
    three_digits sub_dir
    /\ has_text_segment txt_path sub_dir
    /\ image_extensions = before ++ ext :: after
    /\ (forall x, In x before ->
          e_exists e (candidate sub_dir base_name x) = false)
    /\ e_exists e (candidate sub_dir base_name ext) = true
    /\ e_upload_ok e (call_for e sub_dir base_name ext) = true
    /\ url = url_for e sub_dir base_name ext
    /\ calls = [call_for e sub_dir base_name ext].
Proof.
  intros Hres base_name.
  destruct (find_and_upload_image_cases txt_path)
    as [[_ H]|(sub_dir & _ & H3 & Hseg & [[H _]|H])];
    try (rewrite H in Hres; discriminate).
  destruct H as (before & ext & after & Hsplit & Hb & Hex & H).
  fold base_name in Hb, Hex, H. rewrite H in Hres.
  exists sub_dir, before, ext, after.
  destruct (e_upload_ok e (call_for e sub_dir base_name ext));
    [|discriminate].
  injection Hres as <- <-. conjs; auto.
Qed.

Lemma content_type_of_extension (ext : str) :
  In ext image_extensions ->
  In (content_type ext) [lit "image/jpg"; lit "image/jpeg"; lit "image/png"].
Proof.
  intros [<-|[<-|[<-|[<-|[<-|[<-|[]]]]]]]; cbn; auto.
Qed.

(** X17: for one text file at most one upload is made.  The image uploaded
    exists, its content type is [image/jpg], [image/jpeg] or [image/png],
    and the upload decides the result: its URL when it succeeds, no URL
    when it fails, without a try of the extensions that follow. *)
Theorem one_upload_decides (txt_path : str) :
  let result := find_and_upload_image e txt_path in
  length (snd result) <= 1
  /\ forall c,
       In c (snd result) ->
       e_exists e (u_source c) = true
       /\ In (u_content_type c)
            [lit "image/jpg"; lit "image/jpeg"; lit "image/png"]
       /\ (e_upload_ok e c = true ->
           fst result = Some (R2_PUBLIC_URL e ++ lit "/" ++ u_key c))
       /\ (e_upload_ok e c = false -> fst result = None).
Proof.
  intros result. subst result.
  destruct (find_and_upload_image_cases txt_path)
    as [[_ H]|(sub_dir & _ & H3 & Hseg & [[H _]|H])];
    try (rewrite H; split; [simpl; lia|intros c []]).
  destruct H as (before & ext & after & Hsplit & Hb & Hex & ->).
  cbn [fst snd]. split; [simpl; lia|].
  intros c [<-|[]]. cbn [u_source u_content_type u_key call_for].
  conjs.
  - exact Hex.
  - apply content_type_of_extension. rewrite Hsplit.
    apply in_or_app. right. now left.
  - intros ->. reflexivity.
  - intros ->. reflexivity.
Qed.

(** X18: for a text file [dir/stem.txt] whose stem has a character other than
    a dot, a returned URL ends with the sub-directory, the stem and an
    image extension. *)
Theorem url_uses_stem (dir stem url : str) (calls : list upload_call) :
  ~ In "/"%char stem ->
  existsb (fun x => negb (Ascii.eqb x ".")) stem = true ->
  find_and_upload_image e (dir ++ lit "/" ++ stem ++ lit ".txt")
  = (Some url, calls) ->
  exists sub_dir ext,
    three_digits sub_dir
    /\ In ext image_extensions
    /\ url = R2_PUBLIC_URL e ++ lit "/" ++ sub_dir ++ lit "/" ++ stem ++ ext.
Proof.
  intros Hslash Hstem Hres.
  assert (Hbase : OsPath.splitext_root
                    (Indexer.basename (dir ++ lit "/" ++ stem ++ lit ".txt"))
                  = stem).
  { rewrite basename_of_file.
    - apply (splitext_root_stem stem (lit "txt")); [|
        apply contains_char_false; reflexivity|assumption].
      intros H. apply in_app_or in H as [H|H]; [contradiction|].
      revert H. apply contains_char_false. reflexivity.
    - intros H. apply in_app_or in H as [H|H]; [contradiction|].
      revert H. apply contains_char_false. reflexivity. }
  destruct (find_and_upload_image_cases
              (dir ++ lit "/" ++ stem ++ lit ".txt"))
    as [[_ H]|(sub_dir & _ & H3 & Hseg & [[H _]|H])];
    try (rewrite H in Hres; discriminate).
  destruct H as (before & ext & after & Hsplit & _ & _ & H).
  rewrite Hbase in H. rewrite H in Hres.
  destruct (e_upload_ok e (call_for e sub_dir stem ext)); [|discriminate].
  injection Hres as <- _. exists sub_dir, ext. conjs.
  - assumption.
  - rewrite Hsplit. apply in_or_app. right. now left.
  - reflexivity.
Qed.




End UploadFacts.

Section UploadExamples.

Import Images ImageSpec Sample2.

Example fox_image_found :
  find_and_upload_image fox_env (lit "/data/TEXT/001/fox.txt")
  = (Some (lit "https://pub.example/001/fox.JPG"),
     [ {| u_source :=
            lit "/home/jon/Documents/Epstein dump nov 12/001/fox.JPG";
          u_bucket := lit "bucket";
          u_key := lit "001/fox.JPG";
          u_content_type := lit "image/jpg" |} ]).
Proof. reflexivity. Qed.

(** A file name that is only an extension keeps its dot: the image
    looked for is [.txt.jpg] and so on. *)
Example dotfile_base_name :
  OsPath.splitext_root (Indexer.basename (lit "/data/TEXT/001/.txt"))
  = lit ".txt".
Proof. reflexivity. Qed.

Lemma no_text_segment_no_image_witness :
  find_and_upload_image fox_env (lit "/data/TEXT/01/fox.txt") = (None, []).
Proof.
  apply no_text_segment_no_image.
  intros sub_dir H3 Hseg.
  apply (find_subdir_complete _ _ H3 Hseg). reflexivity.
Defined.

Lemma returned_url_names_uploaded_image_witness :
  exists sub_dir ext,
    three_digits sub_dir
    /\ has_text_segment (lit "/data/TEXT/001/fox.txt") sub_dir
    /\ lit "https://pub.example/001/fox.JPG"
       = url_for fox_env sub_dir
           (OsPath.splitext_root
              (Indexer.basename (lit "/data/TEXT/001/fox.txt"))) ext.
Proof.
  destruct (returned_url_names_uploaded_image fox_env
              (lit "/data/TEXT/001/fox.txt") _ _ fox_image_found)
    as (sub_dir & before & ext & after & H3 & Hseg & _ & _ & _ & _ & Hu & _).
  exists sub_dir, ext. split; [exact H3|]. split; [exact Hseg|exact Hu].
Defined.

Lemma one_upload_decides_witness :
  fst (find_and_upload_image failing_env (lit "/data/TEXT/001/fox.txt"))
  = None
  /\ length (snd (find_and_upload_image failing_env
                    (lit "/data/TEXT/001/fox.txt"))) <= 1.
Proof.
  pose proof (one_upload_decides failing_env
                (lit "/data/TEXT/001/fox.txt")) as H.
  cbv zeta in H. destruct H as [Hlen Hcall]. split; [|exact Hlen].
  refine (proj2 (proj2 (proj2 (Hcall
            {| u_source :=
                 lit "/home/jon/Documents/Epstein dump nov 12/001/fox.jpg";
               u_bucket := lit "bucket";
               u_key := lit "001/fox.jpg";
               u_content_type := lit "image/jpg" |} _))) _).
  - left. reflexivity.
  - reflexivity.
Defined.

Lemma url_uses_stem_witness :
  exists sub_dir ext,
    three_digits sub_dir
    /\ In ext image_extensions
    /\ lit "https://pub.example/001/fox.JPG"
       = R2_PUBLIC_URL fox_env ++ lit "/" ++ sub_dir ++ lit "/"
           ++ lit "fox" ++ ext.
Proof.
  apply (url_uses_stem fox_env (lit "/data/TEXT/001") (lit "fox")
           (lit "https://pub.example/001/fox.JPG")
           [ {| u_source :=
                  lit "/home/jon/Documents/Epstein dump nov 12/001/fox.JPG";
                u_bucket := lit "bucket";
                u_key := lit "001/fox.JPG";
                u_content_type := lit "image/jpg" |} ]).
  - apply contains_char_false. reflexivity.
  - reflexivity.
  - reflexivity.
Defined.

Example second_run_uploads_again :
  let paths := [lit "/data/TEXT/001/fox.txt"; lit "/data/TEXT/001/cat.txt"] in
  let first := index_text_files fox_env paths ([], []) in
  let second := index_text_files fox_env paths first in
  map Indexer.filepath (fst second) = [lit "/data/TEXT/001/fox.txt"]
  /\ fst second = fst first
  /\ map u_key (snd first) = [lit "001/fox.JPG"]
  /\ map u_key (snd second) = [lit "001/fox.JPG"; lit "001/fox.JPG"].
Proof. repeat split. Qed.

End UploadExamples.
